(** * update_html.py: a shallow embedding and its verified properties

    The program walks a directory of HTML files and, for each file,
    injects a preview script, hardens hyperlinks, and rewrites the
    Content-Security-Policy meta element so that script-src allows 'self'.

    Modelling conventions.
    - A Python [str] is a [string]; a character is a code point below 256
      (ASCII and Latin-1).  Whitespace, case mapping and case-insensitive
      matching are the ones Python applies to these code points.
    - A parsed document is the list of children of the BeautifulSoup root;
      attribute dictionaries are association lists in insertion order.
      The parser gives tag and attribute names in lower case, and the
      searches compare names exactly.  The value of an attribute is a
      string; the attributes the parser keeps as lists of values (class,
      rel) are never read by the program.
    - Functions that mutate the soup and return a flag become functions
      returning the new soup together with the flag.
    - Library services whose code is not part of the program
      ([html.unescape], the HTML parser and serializer, the codecs, the
      encoding detector) are section variables. *)

From Stdlib Require Import String Ascii List Bool Arith.
From Stdlib Require Import Strings.Byte NArith QArith.
Import ListNotations.
Close Scope Q_scope.
Open Scope string_scope.
Open Scope list_scope.

(** ** Python string operations used by the program *)

(** [str.isspace] on one character (code points below 256): TAB..CR,
    FS..US, SPACE, NEL and NBSP. *)
Definition isspace (c : ascii) : bool :=
  let n := nat_of_ascii c in
  (((9 <=? n) && (n <=? 13)) || ((28 <=? n) && (n <=? 32))
   || (n =? 133) || (n =? 160))%nat.

(** [str.lower] on one character: A..Z and the Latin-1 capitals
    (all of 0xC0..0xDE but the multiplication sign). *)
Definition lower_char (c : ascii) : ascii :=
  let n := nat_of_ascii c in
  if (((65 <=? n) && (n <=? 90))
      || ((192 <=? n) && (n <=? 222) && negb (n =? 215)))%nat
  then ascii_of_nat (n + 32) else c.

Fixpoint lower (s : string) : string :=
  match s with
  | EmptyString => EmptyString
  | String c r => String (lower_char c) (lower r)
  end.

(** [s.startswith(p)] *)
Definition startswith (s p : string) : bool := String.prefix p s.

(** [sub in s] *)
Fixpoint contains (sub s : string) : bool :=
  String.prefix sub s
  || match s with
     | EmptyString => false
     | String _ r => contains sub r
     end.

(** [s.lstrip(chars)], [s.rstrip(chars)] and [s.strip(chars)], the set of
    characters given as a predicate. *)
Fixpoint lstrip_by (p : ascii -> bool) (s : string) : string :=
  match s with
  | EmptyString => EmptyString
  | String c r => if p c then lstrip_by p r else s
  end.

Fixpoint rstrip_by (p : ascii -> bool) (s : string) : string :=
  match s with
  | EmptyString => EmptyString
  | String c r =>
      match rstrip_by p r with
      | EmptyString => if p c then EmptyString else String c EmptyString
      | r' => String c r'
      end
  end.

Definition strip_by (p : ascii -> bool) (s : string) : string :=
  rstrip_by p (lstrip_by p s).

(** [s.strip()] *)
Definition strip (s : string) : string := strip_by isspace s.

(** The character set of the quote-stripping [src.strip(...)]: the apostrophe
    and the double quote. *)
Definition is_quote (c : ascii) : bool :=
  Ascii.eqb c "'"%char || Ascii.eqb c "034"%char.

(** [s.split(sep)] for a one-character separator: empty pieces are kept. *)
Fixpoint split_on (sep : ascii) (s : string) : list string :=
  match s with
  | EmptyString => [EmptyString]
  | String c r =>
      if Ascii.eqb c sep then EmptyString :: split_on sep r
      else match split_on sep r with
           | [] => [String c EmptyString]
           | h :: t => String c h :: t
           end
  end.

(** Does the string begin with a whitespace character? *)
Definition head_isspace (s : string) : bool :=
  match s with
  | EmptyString => false
  | String c _ => isspace c
  end.

(** [s.split()]: pieces between runs of whitespace, none of them empty. *)
Fixpoint split_ws (s : string) : list string :=
  match s with
  | EmptyString => []
  | String c r =>
      if isspace c then split_ws r
      else match split_ws r with
           | [] => [String c EmptyString]
           | h :: t =>
               if head_isspace r then String c EmptyString :: h :: t
               else String c h :: t
           end
  end.

(** [sep.join(l)] *)
Definition join (sep : string) (l : list string) : string :=
  String.concat sep l.

(** [s.replace(c, new)] for a one-character [c]. *)
Fixpoint replace_char (c : ascii) (new : string) (s : string) : string :=
  match s with
  | EmptyString => EmptyString
  | String x r =>
      if Ascii.eqb x c then new ++ replace_char c new r
      else String x (replace_char c new r)
  end.

(** Truth value of a [str]. *)
Definition nonempty (s : string) : bool :=
  match s with EmptyString => false | _ => true end.

Definition LF : string := String "010"%char EmptyString.

(** [re.compile('^' + pat + '$', re.IGNORECASE).search(s)] for a literal
    [pat] given in lower case.  In Python [$] matches at the end of the
    string and also just before a line feed that ends the string. *)
Definition re_search_anchored_ci (pat s : string) : bool :=
  String.eqb (lower s) pat || String.eqb (lower s) (pat ++ LF).

(** ** The parsed document

    The tree BeautifulSoup builds with [html.parser]: tags with their
    attribute dictionary and children, text, comments and doctypes. *)

Definition attrs : Type := list (string * string).

#[local] Set Warnings "-register-all".

Inductive node : Type :=
| Tag (name : string) (attributes : attrs) (contents : list node)
| NavigableString (text : string)
| Comment (text : string)
| Doctype (text : string).

(** The children of the root object. *)
Definition soup : Type := list node.

(** [tag.get(k)] *)
Fixpoint get_attr (k : string) (a : attrs) : option string :=
  match a with
  | [] => None
  | (k', v) :: r => if String.eqb k' k then Some v else get_attr k r
  end.

(** [tag.has_attr(k)] *)
Definition has_attr (k : string) (a : attrs) : bool :=
  match get_attr k a with Some _ => true | None => false end.

(** [tag[k] = v]: an existing key keeps its place, a new key goes last. *)
Fixpoint set_attr (k v : string) (a : attrs) : attrs :=
  match a with
  | [] => [(k, v)]
  | (k', v') :: r =>
      if String.eqb k' k then (k, v) :: r else (k', v') :: set_attr k v r
  end.

Definition node_attr (k : string) (n : node) : option string :=
  match n with
  | Tag _ a _ => get_attr k a
  | _ => None
  end.

Definition set_attribute (k v : string) (n : node) : node :=
  match n with
  | Tag nm a cs => Tag nm (set_attr k v a) cs
  | _ => n
  end.

(** A node followed by everything below it, in document order. *)
Fixpoint self_and_descendants (n : node) : list node :=
  n :: match n with
       | Tag _ _ cs => flat_map self_and_descendants cs
       | _ => []
       end.

(** [soup.descendants], the sequence every search runs over. *)
Definition descendants (s : soup) : list node :=
  flat_map self_and_descendants s.

(** [soup.find(...)]: the first match in document order. *)
Definition find (p : node -> bool) (s : soup) : option node :=
  List.find p (descendants s).

(** [soup.find_all(...)] *)
Definition find_all (p : node -> bool) (s : soup) : list node :=
  filter p (descendants s).

(** Search criteria: the tag name, and an attribute whose value passes a
    test (an element without the attribute never matches). *)
Definition tag_named (nm : string) (n : node) : bool :=
  match n with
  | Tag x _ _ => String.eqb x nm
  | _ => false
  end.

Definition attr_matches (k : string) (m : string -> bool) (n : node) : bool :=
  match node_attr k n with
  | Some v => m v
  | None => false
  end.

(** In-place mutation of the element a search returned: the first node in
    document order that satisfies [p] is replaced by its image under [f]. *)
Fixpoint try_update_node (p : node -> bool) (f : node -> node) (n : node)
  : option node :=
  if p n then Some (f n)
  else match n with
       | Tag nm a cs =>
           option_map (Tag nm a)
             ((fix go (l : list node) : option (list node) :=
                 match l with
                 | [] => None
                 | c :: r =>
                     match try_update_node p f c with
                     | Some c' => Some (c' :: r)
                     | None => option_map (cons c) (go r)
                     end
                 end) cs)
       | _ => None
       end.

Fixpoint try_update (p : node -> bool) (f : node -> node) (l : list node)
  : option (list node) :=
  match l with
  | [] => None
  | c :: r =>
      match try_update_node p f c with
      | Some c' => Some (c' :: r)
      | None => option_map (cons c) (try_update p f r)
      end
  end.

Definition update_first (p : node -> bool) (f : node -> node) (s : soup)
  : soup :=
  match try_update p f s with
  | Some s' => s'
  | None => s
  end.

(** [soup.new_tag(name, **attrs)] *)
Definition new_tag (nm : string) (a : attrs) : node := Tag nm a [].

(** [tag.append(child)] *)
Definition append_child (c : node) (n : node) : node :=
  match n with
  | Tag nm a cs => Tag nm a (cs ++ [c])
  | _ => n
  end.

(** ** Markup mutators *)

(** The criterion of [soup.find('script', src=re.compile(r'^/preview\.js$',
    re.IGNORECASE))]. *)
Definition is_preview_script (n : node) : bool :=
  tag_named "script" n
  && attr_matches "src" (re_search_anchored_ci "/preview.js") n.

Definition preview_tag : node := new_tag "script" [("src", "/preview.js")].

(** [ensure_script(soup)], lines 102-112. *)
Definition ensure_script (s : soup) : soup * bool :=
  match find is_preview_script s with
  | Some _ => (s, false)
  | None =>
      match find (tag_named "body") s with
      | Some _ => (update_first (tag_named "body") (append_child preview_tag) s, true)
      | None => (s ++ [preview_tag], true)
      end
  end.

(** One turn of the loop of [add_target_blank] on the attributes of an
    anchor. *)
Definition harden_attrs (a : attrs) : attrs :=
  if has_attr "target" a then a
  else set_attr "rel" "noopener noreferrer" (set_attr "target" "_blank" a).

(** The loop of [add_target_blank] below one node: every anchor is visited,
    only attributes change, and the flag records whether one was set. *)
Fixpoint harden_node (n : node) : node * bool :=
  match n with
  | Tag nm a cs =>
      let '(cs', below) :=
        (fix go (l : list node) : list node * bool :=
           match l with
           | [] => ([], false)
           | c :: r =>
               let '(c', b1) := harden_node c in
               let '(r', b2) := go r in
               (c' :: r', b1 || b2)
           end) cs in
      if String.eqb nm "a" && negb (has_attr "target" a)
      then (Tag nm (harden_attrs a) cs', true)
      else (Tag nm a cs', below)
  | _ => (n, false)
  end.

Fixpoint harden_list (l : list node) : list node * bool :=
  match l with
  | [] => ([], false)
  | c :: r =>
      let '(c', b1) := harden_node c in
      let '(r', b2) := harden_list r in
      (c' :: r', b1 || b2)
  end.

(** [add_target_blank(soup)], lines 115-124. *)
Definition add_target_blank (s : soup) : soup * bool := harden_list s.

(** [adjust_body(soup)], lines 127-129: Python's [or] evaluates its right
    operand only when the left one is false. *)
Definition adjust_body (s : soup) : soup * bool :=
  let '(s1, injected) := ensure_script s in
  if injected then (s1, true) else add_target_blank s1.

(** ** The CSP meta mutator *)

Section CspMeta.

(** [html.unescape] *)
Variable unescape : string -> string.

(** [[d.strip() for d in decoded.split(';') if d.strip()]], line 149. *)
Definition parse_directives (decoded : string) : list string :=
  map strip (filter (fun d => nonempty (strip d)) (split_on ";" decoded)).

(** [d.lower().startswith('script-src')] *)
Definition is_script_src (d : string) : bool :=
  startswith (lower d) "script-src".

(** [any(src.strip(...) == 'self' for src in sources)] *)
Definition has_self (sources : list string) : bool :=
  existsb (fun src => String.eqb (strip_by is_quote src) "self") sources.

(** The body of the loop over the directives, lines 153-162; the state is
    [(new_directives, script_src_found)]. *)
Definition loop_body (st : list string * bool) (d : string)
  : list string * bool :=
  let '(new_directives, script_src_found) := st in
  if is_script_src d then
    let parts := split_ws d in
    let sources := tl parts in
    let sources :=
      if negb (has_self sources) then sources ++ ["'self'"] else sources in
    (new_directives ++ [("script-src " ++ join " " sources)%string], true)
  else (new_directives ++ [d], script_src_found).

(** The directive list after the loop and the append that follows it,
    lines 149-165. *)
Definition new_directives_of (decoded : string) : list string :=
  let directives := parse_directives decoded in
  let '(new_directives, script_src_found) :=
    fold_left loop_body directives ([], false) in
  if negb script_src_found then new_directives ++ ["script-src 'self'"]
  else new_directives.

(** The value computed for the content attribute, from the unescaping to
    the restoration of the entity style, lines 147-171. *)
Definition rewrite_content (raw_content : string) : string :=
  let decoded := unescape raw_content in
  let new_content := join "; " (new_directives_of decoded) in
  if contains "&#39;" raw_content
  then replace_char "'" "&#39;" new_content
  else new_content.

(** The criterion of the search for the policy element. *)
Definition is_csp_meta (n : node) : bool :=
  tag_named "meta" n
  && attr_matches "http-equiv"
       (fun v => re_search_anchored_ci "content-security-policy" v
                 || re_search_anchored_ci "x-content-security-policy" v) n.

(** [adjust_csp_meta(soup)], lines 132-177. *)
Definition adjust_csp_meta (s : soup) : soup * bool :=
  match find is_csp_meta s with
  | None => (s, false)
  | Some meta =>
      match node_attr "content" meta with
      | None => (s, false)
      | Some raw_content =>
          let new_content := rewrite_content raw_content in
          if String.eqb new_content raw_content then (s, false)
          else (update_first is_csp_meta
                  (set_attribute "content" new_content) s, true)
      end
  end.

End CspMeta.

(** ** The encoding resolver *)

(** The one exception that can leave [read_file_smart]. *)
Inductive exn : Type :=
| AttributeError.

Inductive result (A : Type) : Type :=
| Ok (a : A)
| Raise (e : exn).

Arguments Ok {A} a.
Arguments Raise {A} e.

(** What [chardet.detect] returns: a dictionary read with
    [result.get('encoding')] and [result.get('confidence', 0)]; an absent
    key is [None]. *)
Record detection : Type := {
  det_encoding : option string;
  det_confidence : option Q
}.

(** What [charset_normalizer.from_bytes] returns: a [CharsetMatches]
    sequence of candidate encodings, best first.  It is read by index, by
    iteration and by [best()]; it has no [get] method. *)
Definition CharsetMatches : Type := list string.

(** The three bindings the import block, lines 41-53, can give to
    [detect_encoding]. *)
Inductive detector : Type :=
| CharsetNormalizer (from_bytes : list byte -> CharsetMatches)
| Chardet (detect : list byte -> detection)
| NoDetector.

Section Encoding.

(** Python text; the codecs of the interpreter turn bytes into it. *)
Variable text : Type.

(** [raw.decode('utf-8')]; [None] stands for [UnicodeDecodeError]. *)
Variable decode_utf8 : list byte -> option text.

(** [raw.decode(enc)]; [None] stands for any exception it raises. *)
Variable decode : string -> list byte -> option text.

(** [raw.decode('utf-8', errors='replace')], which never raises. *)
Variable decode_utf8_replace : list byte -> text.

Variable detect_encoding : detector.

(** [enc and conf > 0.5] on the dictionary of the detector. *)
Definition accepted_encoding (r : detection) : option string :=
  let enc := det_encoding r in
  let conf := match det_confidence r with Some c => c | None => 0%Q end in
  match enc with
  | Some e => if nonempty e && negb (Qle_bool conf (1 # 2)) then Some e else None
  | None => None
  end.

(** [read_file_smart(path)], lines 56-78, from the bytes of the file. *)
Definition read_file_smart (raw : list byte) : result text :=
  match decode_utf8 raw with
  | Some t => Ok t
  | None =>
      match detect_encoding with
      | CharsetNormalizer from_bytes =>
          let result := from_bytes raw in
          (* result.get('encoding'): the object has no such attribute *)
          Raise AttributeError
      | Chardet detect =>
          let result := detect raw in
          match accepted_encoding result with
          | Some enc =>
              match decode enc raw with
              | Some t => Ok t
              | None => Ok (decode_utf8_replace raw)
              end
          | None => Ok (decode_utf8_replace raw)
          end
      | NoDetector => Ok (decode_utf8_replace raw)
      end
  end.

End Encoding.

(** ** The per-file pipeline *)

Definition is_comment (n : node) : bool :=
  match n with
  | Comment _ => true
  | _ => false
  end.

(** The loop that extracts every comment node from the tree, lines
    187-188. *)
Fixpoint extract_comments_node (n : node) : node :=
  match n with
  | Tag nm a cs =>
      Tag nm a
        ((fix go (l : list node) : list node :=
            match l with
            | [] => []
            | c :: r =>
                if is_comment c then go r
                else extract_comments_node c :: go r
            end) cs)
  | _ => n
  end.

Fixpoint extract_comments (l : list node) : list node :=
  match l with
  | [] => []
  | c :: r =>
      if is_comment c then extract_comments r
      else extract_comments_node c :: extract_comments r
  end.

Section Pipeline.

Variable text : Type.
Variable decode_utf8 : list byte -> option text.
Variable decode : string -> list byte -> option text.
Variable decode_utf8_replace : list byte -> text.
Variable detect_encoding : detector.
Variable unescape : string -> string.

(** [BeautifulSoup(original_html, 'html.parser')] *)
Variable BeautifulSoup : text -> soup.

(** [soup.prettify(formatter='html')] *)
Variable prettify : soup -> text.

(** What a run does to the file: the text handed to [write_file_utf8], or
    nothing. *)
Inductive outcome : Type :=
| Updated (written : text)
| NoChange.

(** The two mutators in sequence and the disjunction of their flags,
    lines 190-193. *)
Definition mutate (s : soup) : soup * bool :=
  let '(s1, body_changed) := adjust_body s in
  let '(s2, csp_changed) := adjust_csp_meta unescape s1 in
  (s2, body_changed || csp_changed).

(** [process_file(path)], lines 180-198, from the bytes of the file. *)
Definition process_file (raw : list byte) : result outcome :=
  match read_file_smart text decode_utf8 decode decode_utf8_replace
          detect_encoding raw with
  | Raise e => Raise e
  | Ok original_html =>
      let s := extract_comments (BeautifulSoup original_html) in
      let '(s', changed) := mutate s in
      if changed then Ok (Updated (prettify s')) else Ok NoChange
  end.

End Pipeline.

Arguments Updated {text} written.
Arguments NoChange {text}.

(** ** Files, console and the batch

    The part of the program that touches the outside: the bytes of a file
    are read, the new text is written, a line is printed per file, and the
    loop visits every HTML file below the root. *)

(** What can be raised while a file is processed: the exception of the
    encoding resolver, [PermissionError], an [OSError] of another kind,
    and anything else (a [UnicodeEncodeError] of the writer, say). *)
Inductive exception : Type :=
| Resolver (e : exn)
| PermissionError
| OSError
| OtherException.

(** The lines the program prints; each carries the path it is about. *)
Inductive line : Type :=
| WarnNotWritten (path : string)
| WarnWriteError (path : string)
| LineUpdated (path : string)
| LineUnchanged (path : string)
| LineDone.

(** How a run of the program ends. *)
Inductive termination : Type :=
| Finished
| SystemExit
| Uncaught (e : exception).

(** The import block, lines 41-53: charset_normalizer when it can be
    imported, else chardet when it can, else no detector. *)
Definition import_detect_encoding
    (charset_normalizer : option (list byte -> CharsetMatches))
    (chardet : option (list byte -> detection)) : detector :=
  match charset_normalizer with
  | Some from_bytes => CharsetNormalizer from_bytes
  | None =>
      match chardet with
      | Some detect => Chardet detect
      | None => NoDetector
      end
  end.

(** What the program takes from the interpreter, its libraries and the
    operating system. *)
Record platform : Type := {
  (** Python text and the codecs *)
  lib_text : Type;
  lib_decode_utf8 : list byte -> option lib_text;
  lib_decode : string -> list byte -> option lib_text;
  lib_decode_replace : list byte -> lib_text;
  (** the binding of [detect_encoding] *)
  lib_detector : detector;
  (** [html.unescape] *)
  lib_unescape : string -> string;
  (** [BeautifulSoup(original_html, 'html.parser')] and
      [soup.prettify(formatter='html')] *)
  lib_parse : lib_text -> soup;
  lib_prettify : soup -> lib_text;
  (** the file system *)
  os_world : Type;
  (** [path.read_bytes()] *)
  os_read_bytes : os_world -> string -> list byte + exception;
  (** [path.write_text(text, encoding='utf-8')]: the file system
      afterwards, and the exception raised, if any *)
  os_write_text : string -> lib_text -> os_world -> os_world * option exception;
  (** [SITE_ROOT.is_dir()] *)
  os_is_dir : os_world -> bool;
  (** [SITE_ROOT.rglob('*.html')], in the order of the iteration *)
  os_rglob : os_world -> list string
}.

(** The state of a run: the file system and what was printed so far. *)
Definition machine (P : platform) : Type := (os_world P * list line)%type.

Definition print {P : platform} (l : line) (m : machine P) : machine P :=
  (fst m, snd m ++ [l]).

(** [read_file_smart] and [process_file] on a platform. *)
Definition file_text (P : platform) (raw : list byte) : result (lib_text P) :=
  read_file_smart (lib_text P) (lib_decode_utf8 P) (lib_decode P)
    (lib_decode_replace P) (lib_detector P) raw.

Definition file_outcome (P : platform) (raw : list byte)
  : result (outcome (lib_text P)) :=
  process_file (lib_text P) (lib_decode_utf8 P) (lib_decode P)
    (lib_decode_replace P) (lib_detector P) (lib_unescape P) (lib_parse P)
    (lib_prettify P) raw.

(** [write_file_utf8(path, text)], lines 81-93: the two handlers print a
    warning and return; any other exception leaves the function. *)
Definition write_file_utf8 (P : platform) (path : string) (t : lib_text P)
    (m : machine P) : machine P * option exception :=
  let '(w, raised) := os_write_text P path t (fst m) in
  match raised with
  | None => ((w, snd m), None)
  | Some PermissionError => (print (WarnNotWritten path) (w, snd m), None)
  | Some OSError => (print (WarnWriteError path) (w, snd m), None)
  | Some e => ((w, snd m), Some e)
  end.

(** [process_file(path)], lines 180-198, with its reads, writes and
    prints. *)
Definition run_process_file (P : platform) (path : string) (m : machine P)
  : machine P * option exception :=
  match os_read_bytes P (fst m) path with
  | inr e => (m, Some e)
  | inl raw =>
      match file_outcome P raw with
      | Raise e => (m, Some (Resolver e))
      | Ok NoChange => (print (LineUnchanged path) m, None)
      | Ok (Updated t) =>
          match write_file_utf8 P path t m with
          | (m', Some e) => (m', Some e)
          | (m', None) => (print (LineUpdated path) m', None)
          end
      end
  end.

(** The loop of [walk_and_update], lines 209-210: an exception ends it. *)
Fixpoint walk (P : platform) (paths : list string) (m : machine P)
  : machine P * option exception :=
  match paths with
  | [] => (m, None)
  | path :: rest =>
      match run_process_file P path m with
      | (m', None) => walk P rest m'
      | (m', Some e) => (m', Some e)
      end
  end.

(** [walk_and_update()] *)
Definition walk_and_update (P : platform) (m : machine P)
  : machine P * option exception :=
  walk P (os_rglob P (fst m)) m.

(** [main()], lines 216-224. *)
Definition main (P : platform) (m : machine P) : machine P * termination :=
  if negb (os_is_dir P (fst m)) then (m, SystemExit)
  else match walk_and_update P m with
       | (m', Some e) => (m', Uncaught e)
       | (m', None) => (print LineDone m', Finished)
       end.


(** ** Concrete instances used in the examples *)

(** An unescaping function that decodes the reference [&#39;] and nothing
    else.  It agrees with [html.unescape] on every string in which each
    ampersand starts that reference. *)
Fixpoint unescape_apos (s : string) : string :=
  match s with
  | EmptyString => EmptyString
  | String c r =>
      let r' := unescape_apos r in
      if Ascii.eqb c "&"%char && String.prefix "#39;" r'
      then String "'"%char (substring 4 (String.length r') r')
      else String c r'
  end.

(** Strict UTF-8 decoding to code points, on bytes given as numbers. *)
Definition is_cont (b : N) : bool := ((128 <=? b) && (b <=? 191))%N.

Fixpoint utf8_code_points (bs : list N) : option (list N) :=
  match bs with
  | [] => Some []
  | b0 :: r0 =>
      if (b0 <? 128)%N then option_map (cons b0) (utf8_code_points r0)
      else
        match r0 with
        | [] => None
        | b1 :: r1 =>
            if ((194 <=? b0) && (b0 <=? 223))%N && is_cont b1
            then option_map (cons ((b0 - 192) * 64 + (b1 - 128))%N)
                   (utf8_code_points r1)
            else
              match r1 with
              | [] => None
              | b2 :: r2 =>
                  if ((224 <=? b0) && (b0 <=? 239))%N && is_cont b1 && is_cont b2
                     && negb ((b0 =? 224)%N && (b1 <? 160)%N)
                     && negb ((b0 =? 237)%N && (160 <=? b1)%N)
                  then option_map
                         (cons ((b0 - 224) * 4096 + (b1 - 128) * 64
                                + (b2 - 128))%N)
                         (utf8_code_points r2)
                  else
                    match r2 with
                    | [] => None
                    | b3 :: r3 =>
                        if ((240 <=? b0) && (b0 <=? 244))%N
                           && is_cont b1 && is_cont b2 && is_cont b3
                           && negb ((b0 =? 240)%N && (b1 <? 144)%N)
                           && negb ((b0 =? 244)%N && (144 <=? b1)%N)
                        then option_map
                               (cons ((b0 - 240) * 262144 + (b1 - 128) * 4096
                                      + (b2 - 128) * 64 + (b3 - 128))%N)
                               (utf8_code_points r3)
                        else None
                    end
              end
        end
  end.

Definition utf8_strict (raw : list byte) : option (list N) :=
  utf8_code_points (map Byte.to_N raw).

(** The document of the end-to-end scenario, as the parser builds it:
    a body holding one anchor without a target. *)
Definition scenario_doc : soup :=
  [Tag "body" [] [Tag "a" [("href", "x")] [NavigableString "l"]]].

(** A file with a comment whose markup is already in its final form: the
    bytes, and the tree the parser builds for them. *)
Definition commented_file : list byte :=
  list_byte_of_string
    "<!--c--><body><a href='x' target='t'>l</a><script src='/preview.js'></script></body>".

Definition commented_doc : soup :=
  [Comment "c";
   Tag "body" []
     [Tag "a" [("href", "x"); ("target", "t")] [NavigableString "l"];
      Tag "script" [("src", "/preview.js")] []]].

(** UTF-8 encoding of code points, for the examples. *)
Definition utf8_encode_point (n : N) : list N :=
  (if n <? 128 then [n]
   else if n <? 2048 then [192 + n / 64; 128 + n mod 64]
   else if n <? 65536
        then [224 + n / 4096; 128 + (n / 64) mod 64; 128 + n mod 64]
        else [240 + n / 262144; 128 + (n / 4096) mod 64;
              128 + (n / 64) mod 64; 128 + n mod 64])%N.

Definition utf8_encode (t : list N) : list byte :=
  map (fun b => match Byte.of_N b with Some x => x | None => x00 end)
    (flat_map utf8_encode_point t).

(** A file system for the examples: the files by name, and the names of
    the files that may not be written. *)
Record shelf : Type := {
  shelf_files : list (string * list byte);
  shelf_locked : list string
}.

Fixpoint shelf_lookup (p : string) (l : list (string * list byte))
  : option (list byte) :=
  match l with
  | [] => None
  | (q, b) :: r => if String.eqb q p then Some b else shelf_lookup p r
  end.

Fixpoint shelf_store (p : string) (b : list byte)
    (l : list (string * list byte)) : list (string * list byte) :=
  match l with
  | [] => [(p, b)]
  | (q, c) :: r =>
      if String.eqb q p then (p, b) :: r else (q, c) :: shelf_store p b r
  end.

Definition shelf_read (w : shelf) (p : string) : list byte + exception :=
  match shelf_lookup p (shelf_files w) with
  | Some b => inl b
  | None => inr OSError
  end.

Definition shelf_write (p : string) (t : list N) (w : shelf)
  : shelf * option exception :=
  if existsb (String.eqb p) (shelf_locked w) then (w, Some PermissionError)
  else ({| shelf_files := shelf_store p (utf8_encode t) (shelf_files w);
           shelf_locked := shelf_locked w |}, None).

(** The platform of the examples: strict UTF-8, no other codec, the
    unescaping of [&#39;], and the given detector, parser and serializer
    over a shelf. *)
Definition shelf_platform (d : detector) (parse : list N -> soup)
    (serialize : soup -> list N) : platform :=
  {| lib_text := list N;
     lib_decode_utf8 := utf8_strict;
     lib_decode := fun _ _ => None;
     lib_decode_replace := fun _ => [];
     lib_detector := d;
     lib_unescape := unescape_apos;
     lib_parse := parse;
     lib_prettify := serialize;
     os_world := shelf;
     os_read_bytes := shelf_read;
     os_write_text := shelf_write;
     os_is_dir := fun _ => true;
     os_rglob := fun w => map fst (shelf_files w) |}.

(** The file of the end-to-end scenario. *)
Definition scenario_file : list byte :=
  list_byte_of_string "<body><a href='x'>l</a></body>".

(** The path a status line is about. *)
Definition status_path (l : line) : option string :=
  match l with
  | LineUpdated p => Some p
  | LineUnchanged p => Some p
  | _ => None
  end.

Fixpoint status_paths (out : list line) : list string :=
  match out with
  | [] => []
  | l :: r =>
      match status_path l with
      | Some p => p :: status_paths r
      | None => status_paths r
      end
  end.

(** ** Notions the statements below are phrased with *)

(** The name of a directive: its first whitespace-separated token. *)
Definition directive_name (d : string) : string := hd EmptyString (split_ws d).

(** The name starts with [script-src], letter case aside. *)
Definition name_starts_script_src (d : string) : bool :=
  startswith (lower (directive_name d)) "script-src".

(** The name is [script-src], letter case aside. *)
Definition name_is_script_src (d : string) : bool :=
  String.eqb (lower (directive_name d)) "script-src".

(** The source tokens of a directive, with ['self'] appended when no token
    is [self] once its quotes are stripped. *)
Definition sources_with_self (d : string) : list string :=
  let sources := tl (split_ws d) in
  if has_self sources then sources else sources ++ ["'self'"].

(** What the loop emits for one directive. *)
Definition rewritten_directive (d : string) : string :=
  if is_script_src d
  then ("script-src " ++ join " " (sources_with_self d))%string
  else d.

(** A string without whitespace, and a token: such a string, not empty. *)
Fixpoint no_space (s : string) : bool :=
  match s with
  | EmptyString => true
  | String c r => negb (isspace c) && no_space r
  end.

Definition is_token (s : string) : bool := nonempty s && no_space s.

(** What follows a token: nothing, or something that starts with
    whitespace. *)
Definition token_end (tail : string) : Prop :=
  tail = EmptyString \/ head_isspace tail = true.

(** Equality of strings up to letter case. *)
Definition ci_equal (a b : string) : bool := String.eqb (lower a) (lower b).

(** A script element whose src equals the preview path up to letter case. *)
Definition is_preview_script_exact (n : node) : bool :=
  tag_named "script" n && attr_matches "src" (ci_equal "/preview.js") n.

(** The anchors of a document, in document order. *)
Definition anchors (s : soup) : list node := find_all (tag_named "a") s.

Definition lacks_target (n : node) : bool :=
  match n with
  | Tag _ a _ => negb (has_attr "target" a)
  | _ => false
  end.

Definition node_attrs (n : node) : attrs :=
  match n with
  | Tag _ a _ => a
  | _ => []
  end.

(** A node without what lies below it. *)
Definition shallow (n : node) : node :=
  match n with
  | Tag nm a _ => Tag nm a []
  | _ => n
  end.

(** A predicate that looks at the name and the attributes of a node only. *)
Definition shallow_pred (p : node -> bool) : Prop :=
  forall n, p (shallow n) = p n.

(** The effect of an update on the sequence of descendants: the subtree of
    the first match [m] is replaced by the subtree of [f m]; the nodes in
    front keep their names and attributes, the nodes behind are the same. *)
Definition updated_at (p : node -> bool) (f : node -> node)
    (before after : list node) (m : node) : Prop :=
  exists pre pre' post,
    before = pre ++ self_and_descendants m ++ post
    /\ after = pre' ++ self_and_descendants (f m) ++ post
    /\ map shallow pre' = map shallow pre
    /\ List.find p pre = None /\ p m = true.

Definition try_update_result (p : node -> bool) (f : node -> node)
    (before : list node) (r : option (list node)) : Prop :=
  match r with
  | None => List.find p before = None
  | Some after => exists m, updated_at p f before after m
  end.

(** One anchor that the loop has to change. *)
Definition needs_target (n : node) : bool := tag_named "a" n && lacks_target n.

(** The image of one node: an anchor without target gets the two
    attributes, every other node keeps its name and attributes. *)
Definition hardened (n : node) : node := fst (harden_node n).

(** A document without comment nodes. *)
Definition comment_free (s : soup) : Prop := find_all is_comment s = [].

(** The character [c] does not occur in [s]. *)
Definition lacks (c : ascii) (s : string) : Prop :=
  contains (String c "") s = false.

(** A directive as the parser yields them: without semicolon, not empty,
    stripped. *)
Definition well_formed (d : string) : Prop :=
  lacks ";" d /\ nonempty d = true /\ strip d = d.

(** A node without what lies below it and without its attribute [k]. *)
Definition without_attr (k : string) (n : node) : node :=
  match n with
  | Tag nm a _ =>
      Tag nm (filter (fun kv => negb (String.eqb (fst kv) k)) a) []
  | _ => n
  end.

(** The content attribute of the policy element of a document: no policy
    element, one without content attribute, or the value. *)
Definition policy_content (s : soup) : option (option string) :=
  option_map (node_attr "content") (find is_csp_meta s).

(** The policy of the document, if it has one, holds no ampersand. *)
Definition policy_plain (s : soup) : Prop :=
  forall raw, policy_content s = Some (Some raw) -> lacks "&" raw.

(** The policy of the document, if it has one, is a fixed point of the
    rewrite. *)
Definition policy_at_rest (unescape : string -> string) (s : soup) : Prop :=
  forall raw, policy_content s = Some (Some raw) ->
              rewrite_content unescape raw = raw.

(** The document holds the preview script. *)
Definition has_script (s : soup) : Prop :=
  exists x, find is_preview_script s = Some x.

(** A document the pipeline has nothing to do on: the preview script is
    there, every anchor has a target, the policy is at rest. *)
Definition settled (unescape : string -> string) (s : soup) : Prop :=
  has_script s
  /\ existsb needs_target (descendants s) = false
  /\ policy_at_rest unescape s.

(** A page with a policy and the body of the end-to-end scenario. *)
Definition policy_doc : soup :=
  [Tag "head" []
     [Tag "meta" [("http-equiv", "Content-Security-Policy");
                  ("content", "default-src 'none'")] []];
   Tag "body" [] [Tag "a" [("href", "x")] [NavigableString "l"]]].

(** * Facts about the string operations *)

Section StringFacts.

Lemma prefix_empty (s : string) : String.prefix "" s = true.
Proof. destruct s; reflexivity. Qed.

Lemma contains_char_cons (c x : ascii) (r : string) :
  contains (String c "") (String x r)
  = Ascii.eqb c x || contains (String c "") r.
Proof.
  simpl. destruct (ascii_dec c x) as [->|Hne].
  - rewrite prefix_empty, Ascii.eqb_refl. reflexivity.
  - apply Ascii.eqb_neq in Hne. rewrite Hne. reflexivity.
Qed.

Lemma contains_char_app (c : ascii) (a b : string) :
  contains (String c "") (a ++ b)
  = contains (String c "") a || contains (String c "") b.
Proof.
  induction a as [|x a IH].
  - destruct b; reflexivity.
  - change (String x a ++ b)%string with (String x (a ++ b)).
    rewrite !contains_char_cons, IH, orb_assoc. reflexivity.
Qed.

(** Replacing every [c] by a string free of [c] leaves no [c]. *)
Lemma replace_char_clears (c : ascii) (new s : string) :
  contains (String c "") new = false ->
  contains (String c "") (replace_char c new s) = false.
Proof.
  intros Hnew. induction s as [|x r IH]; [reflexivity|].
  simpl replace_char. destruct (Ascii.eqb x c) eqn:E.
  - rewrite contains_char_app, Hnew, IH. reflexivity.
  - rewrite contains_char_cons, IH, Ascii.eqb_sym, E. reflexivity.
Qed.

(** A joined string holds every character of its last item. *)
Lemma contains_char_join_last (c : ascii) (sep x : string) (l : list string) :
  contains (String c "") x = true ->
  contains (String c "") (join sep (l ++ [x])) = true.
Proof.
  intros Hx. unfold join. induction l as [|y l IH]; [exact Hx|].
  cbn [app]. destruct (l ++ [x]) as [|z r] eqn:E.
  - destruct l; discriminate E.
  - change (String.concat sep (y :: z :: r))
      with (y ++ sep ++ String.concat sep (z :: r))%string.
    rewrite !contains_char_app, IH, !orb_true_r. reflexivity.
Qed.

(** Without an occurrence of [c] the replacement changes nothing. *)
Lemma replace_char_absent (c : ascii) (new s : string) :
  contains (String c "") s = false -> replace_char c new s = s.
Proof.
  induction s as [|x r IH]; [reflexivity|].
  rewrite contains_char_cons. intros H. apply orb_false_elim in H as [H1 H2].
  simpl. rewrite Ascii.eqb_sym, H1, IH by assumption. reflexivity.
Qed.

End StringFacts.

Section TokenFacts.

Lemma isspace_lower_char (c : ascii) : isspace (lower_char c) = isspace c.
Proof.
  destruct c as [b0 b1 b2 b3 b4 b5 b6 b7].
  destruct b0, b1, b2, b3, b4, b5, b6, b7; reflexivity.
Qed.

Lemma append_empty_r (s : string) : (s ++ "")%string = s.
Proof. induction s as [|c r IH]; simpl; [|rewrite IH]; reflexivity. Qed.

Lemma append_assoc (a b c : string) :
  ((a ++ b) ++ c)%string = (a ++ (b ++ c))%string.
Proof. induction a as [|x a IH]; simpl; [|rewrite IH]; reflexivity. Qed.

Lemma lower_app (a b : string) :
  lower (a ++ b) = (lower a ++ lower b)%string.
Proof. induction a as [|x a IH]; simpl; [|rewrite IH]; reflexivity. Qed.

Lemma head_isspace_lower (s : string) :
  head_isspace (lower s) = head_isspace s.
Proof. destruct s; simpl; [reflexivity|apply isspace_lower_char]. Qed.

Lemma token_end_lower (tail : string) : token_end tail -> token_end (lower tail).
Proof.
  intros [->|H]; [left; reflexivity|right].
  rewrite head_isspace_lower. exact H.
Qed.

Lemma split_ws_skip (c : ascii) (r : string) :
  isspace c = true -> split_ws (String c r) = split_ws r.
Proof. intros H. simpl. rewrite H. reflexivity. Qed.

Lemma split_ws_word (c : ascii) (r : string) :
  isspace c = false ->
  split_ws (String c r)
  = match split_ws r with
    | [] => [String c ""]
    | h :: t =>
        if head_isspace r then String c "" :: h :: t else String c h :: t
    end.
Proof. intros H. simpl. rewrite H. reflexivity. Qed.

Lemma split_ws_token_end (tail : string) (c : ascii) :
  isspace c = false -> token_end tail ->
  split_ws (String c tail) = String c "" :: split_ws tail.
Proof.
  intros Hc [->|Hs]; simpl; rewrite Hc; [reflexivity|].
  rewrite Hs. destruct (split_ws tail); reflexivity.
Qed.

(** A token in front of a token end is the first piece of the split. *)
Lemma split_ws_token_app (t tail : string) :
  is_token t = true -> token_end tail ->
  split_ws (t ++ tail) = t :: split_ws tail.
Proof.
  induction t as [|c t IH]; [discriminate|].
  intros H Hend. unfold is_token in H. simpl in H.
  apply andb_prop in H as [Hc Ht].
  apply negb_true_iff in Hc.
  destruct t as [|c' t'].
  - simpl append. apply split_ws_token_end; assumption.
  - assert (Htok : is_token (String c' t') = true) by exact Ht.
    specialize (IH Htok Hend).
    change (String c (String c' t') ++ tail)%string
      with (String c (String c' t' ++ tail)).
    rewrite (split_ws_word _ _ Hc), IH.
    unfold is_token in Htok. simpl in Htok. apply andb_prop in Htok as [Hc' _].
    apply negb_true_iff in Hc'. simpl head_isspace. rewrite Hc'. reflexivity.
Qed.

(** A string that starts with a character other than whitespace splits
    into its first token and the pieces of what follows the token. *)
Lemma split_ws_first (r : string) : forall c : ascii,
  isspace c = false ->
  exists name tail,
    split_ws (String c r) = name :: split_ws tail
    /\ String c r = (name ++ tail)%string
    /\ is_token name = true /\ token_end tail.
Proof.
  induction r as [|c' r' IH]; intros c Hc.
  - exists (String c ""), "". unfold is_token, token_end. simpl.
    rewrite Hc. auto.
  - destruct (isspace c') eqn:Hc'.
    + exists (String c ""), (String c' r').
      assert (Hend : token_end (String c' r')) by (right; exact Hc').
      rewrite (split_ws_token_end _ _ Hc Hend).
      unfold is_token. simpl. rewrite Hc. auto.
    + destruct (IH c' Hc') as (name & tail & Hsplit & Heq & Htok & Hend).
      exists (String c name), tail. rewrite Heq.
      assert (Htok' : is_token (String c name) = true).
      { unfold is_token in *. simpl. rewrite Hc. simpl.
        apply andb_prop in Htok as [_ Hn]. exact Hn. }
      change (String c (name ++ tail)) with (String c name ++ tail)%string.
      rewrite (split_ws_token_app _ _ Htok' Hend). auto.
Qed.

(** Every piece of a whitespace split is a token. *)
Lemma split_ws_tokens (s : string) : Forall (fun t => is_token t = true) (split_ws s).
Proof.
  induction s as [|c r IH]; [constructor|].
  simpl. destruct (isspace c) eqn:Hc; [exact IH|].
  assert (H1 : is_token (String c "") = true)
    by (unfold is_token; simpl; rewrite Hc; reflexivity).
  destruct (split_ws r) as [|h t]; [repeat constructor; exact H1|].
  inversion IH as [|? ? Hh Ht]; subst.
  destruct (head_isspace r).
  - repeat constructor; assumption.
  - constructor; [|assumption].
    unfold is_token in *. simpl. rewrite Hc. simpl.
    apply andb_prop in Hh as [_ Hn]. exact Hn.
Qed.

(** Joining tokens with one space and splitting again gives them back. *)
Lemma split_ws_join (toks : list string) :
  Forall (fun t => is_token t = true) toks ->
  split_ws (join " " toks) = toks.
Proof.
  induction toks as [|x r IH]; intros H; [reflexivity|].
  inversion H as [|? ? Hx Hr]; subst.
  destruct r as [|y r'].
  - unfold join. simpl. rewrite <- (append_empty_r x) at 1.
    rewrite split_ws_token_app; [reflexivity|assumption|left; reflexivity].
  - unfold join in *. simpl String.concat.
    rewrite split_ws_token_app; [|assumption|right; reflexivity].
    f_equal. rewrite split_ws_skip by reflexivity. apply IH. exact Hr.
Qed.

Lemma prefix_token_app (p : string) : forall a tail : string,
  no_space p = true -> token_end tail ->
  String.prefix p (a ++ tail) = String.prefix p a.
Proof.
  induction p as [|x p IH]; intros a tail Hp Hend.
  - rewrite !prefix_empty. reflexivity.
  - simpl in Hp. apply andb_prop in Hp as [Hx Hp].
    apply negb_true_iff in Hx.
    destruct a as [|y a].
    + simpl append. destruct Hend as [->|Hs]; [reflexivity|].
      destruct tail as [|t tail]; [reflexivity|]. simpl in *.
      destruct (ascii_dec x t) as [->|_]; [congruence|reflexivity].
    + simpl. destruct (ascii_dec x y); [|reflexivity].
      apply IH; assumption.
Qed.

End TokenFacts.

(** * Facts about the directive rewriter *)

Section DirectiveFacts.

Lemma lstrip_head (s : string) : head_isspace (lstrip_by isspace s) = false.
Proof.
  induction s as [|c r IH]; [reflexivity|].
  simpl. destruct (isspace c) eqn:Hc; [exact IH|]. simpl. exact Hc.
Qed.

Lemma rstrip_head (s : string) :
  head_isspace s = false -> head_isspace (rstrip_by isspace s) = false.
Proof.
  destruct s as [|c r]; [reflexivity|]. simpl. intros Hc.
  destruct (rstrip_by isspace r); [rewrite Hc|]; simpl; assumption.
Qed.

Lemma strip_head (s : string) : head_isspace (strip s) = false.
Proof. apply rstrip_head, lstrip_head. Qed.

(** A parsed directive is a stripped, non-empty piece. *)
Lemma parse_directives_In (decoded d : string) :
  In d (parse_directives decoded) ->
  nonempty d = true /\ head_isspace d = false.
Proof.
  unfold parse_directives. intros H.
  apply in_map_iff in H as (x & <- & Hx).
  apply filter_In in Hx as [_ Hx]. split; [exact Hx|apply strip_head].
Qed.

(** On a string that does not start with whitespace the prefix test of the
    loop is a test on the directive's name. *)
Lemma is_script_src_name (d : string) :
  head_isspace d = false -> is_script_src d = name_starts_script_src d.
Proof.
  destruct d as [|c r]; [reflexivity|]. simpl head_isspace. intros Hc.
  destruct (split_ws_first r c Hc) as (name & tail & Hsplit & Heq & _ & Hend).
  unfold is_script_src, name_starts_script_src, directive_name, startswith.
  rewrite Hsplit, Heq, lower_app. simpl hd.
  apply prefix_token_app; [reflexivity|apply token_end_lower, Hend].
Qed.

Lemma sources_with_self_tokens (d : string) :
  Forall (fun t => is_token t = true) (sources_with_self d).
Proof.
  unfold sources_with_self.
  assert (H : Forall (fun t => is_token t = true) (tl (split_ws d))).
  { pose proof (split_ws_tokens d) as H. destruct (split_ws d); [constructor|].
    inversion H; assumption. }
  destruct (has_self _); [exact H|].
  apply Forall_app. split; [exact H|repeat constructor].
Qed.

(** The tokens of an emitted script-src directive: the lower-case name and
    the sources. *)
Lemma split_ws_rewritten (d : string) :
  is_script_src d = true ->
  split_ws (rewritten_directive d) = "script-src" :: sources_with_self d.
Proof.
  intros H. unfold rewritten_directive. rewrite H.
  change ("script-src " ++ join " " (sources_with_self d))%string
    with ("script-src" ++ String " " (join " " (sources_with_self d)))%string.
  rewrite split_ws_token_app; [|reflexivity|right; reflexivity].
  rewrite split_ws_skip by reflexivity.
  rewrite split_ws_join by apply sources_with_self_tokens. reflexivity.
Qed.

(** The loop over the directives, in closed form. *)
Lemma loop_closed_form (ds : list string) : forall (acc : list string) (b : bool),
  fold_left loop_body ds (acc, b)
  = (acc ++ map rewritten_directive ds, b || existsb is_script_src ds).
Proof.
  induction ds as [|d ds IH]; intros acc b; simpl.
  - rewrite app_nil_r, orb_false_r. reflexivity.
  - unfold rewritten_directive, sources_with_self.
    destruct (is_script_src d) eqn:Hd; rewrite IH, <- app_assoc; simpl.
    + rewrite orb_true_r. destruct (has_self (tl (split_ws d))); reflexivity.
    + reflexivity.
Qed.

Lemma new_directives_closed_form (decoded : string) :
  new_directives_of decoded
  = let ds := parse_directives decoded in
    if existsb is_script_src ds then map rewritten_directive ds
    else map rewritten_directive ds ++ ["script-src 'self'"].
Proof.
  unfold new_directives_of. rewrite loop_closed_form. simpl.
  destruct (existsb _ _); reflexivity.
Qed.

Lemma map_rewritten_id (ds : list string) :
  existsb is_script_src ds = false -> map rewritten_directive ds = ds.
Proof.
  induction ds as [|d ds IH]; [reflexivity|]. simpl.
  intros H. apply orb_false_elim in H as [Hd Hds].
  unfold rewritten_directive at 1. rewrite Hd, IH by assumption. reflexivity.
Qed.

End DirectiveFacts.

(** * Facts about the document tree *)

Section NodeInduction.

Variable P : node -> Prop.
Hypothesis HTag : forall nm a cs, Forall P cs -> P (Tag nm a cs).
Hypothesis HString : forall t, P (NavigableString t).
Hypothesis HComment : forall t, P (Comment t).
Hypothesis HDoctype : forall t, P (Doctype t).

(** Induction over a node with the hypothesis for every child. *)
Fixpoint node_nested_ind (n : node) : P n :=
  match n with
  | Tag nm a cs =>
      HTag nm a cs
        ((fix children (l : list node) : Forall P l :=
            match l with
            | [] => Forall_nil P
            | c :: r => Forall_cons c (node_nested_ind c) (children r)
            end) cs)
  | NavigableString t => HString t
  | Comment t => HComment t
  | Doctype t => HDoctype t
  end.

End NodeInduction.

Section TreeFacts.

Lemma find_app {A : Type} (p : A -> bool) (a b : list A) :
  List.find p (a ++ b)
  = match List.find p a with Some x => Some x | None => List.find p b end.
Proof.
  induction a as [|x a IH]; [reflexivity|]. simpl.
  destruct (p x); [reflexivity|exact IH].
Qed.

Lemma find_none_filter {A : Type} (p : A -> bool) (l : list A) :
  List.find p l = None -> filter p l = [].
Proof.
  induction l as [|x l IH]; [reflexivity|]. simpl.
  destruct (p x); [discriminate|exact IH].
Qed.

Lemma self_and_descendants_Tag nm a cs :
  self_and_descendants (Tag nm a cs) = Tag nm a cs :: descendants cs.
Proof. reflexivity. Qed.

Lemma descendants_cons (c : node) (r : list node) :
  descendants (c :: r) = self_and_descendants c ++ descendants r.
Proof. reflexivity. Qed.

Lemma descendants_app (a b : list node) :
  descendants (a ++ b) = descendants a ++ descendants b.
Proof. unfold descendants. apply flat_map_app. Qed.

Lemma self_and_descendants_head (n : node) :
  exists below, self_and_descendants n = n :: below.
Proof. destruct n; simpl; eauto. Qed.

Lemma try_update_node_Tag p f nm a cs :
  try_update_node p f (Tag nm a cs)
  = if p (Tag nm a cs) then Some (f (Tag nm a cs))
    else option_map (Tag nm a) (try_update p f cs).
Proof.
  simpl. destruct (p (Tag nm a cs)); [reflexivity|]. f_equal.
  induction cs as [|c r IH]; [reflexivity|]. simpl.
  destruct (try_update_node p f c); [reflexivity|]. rewrite IH. reflexivity.
Qed.

Lemma try_update_here p f (n : node) :
  p n = true -> exists m, updated_at p f (self_and_descendants n)
                            (self_and_descendants (f n)) m.
Proof.
  intros Hp. exists n, [], [], []. simpl. rewrite !app_nil_r. auto.
Qed.

Lemma find_leaf p (n : node) (below : list node) :
  p n = false -> List.find p (n :: below) = List.find p below.
Proof. intros Hp. simpl. rewrite Hp. reflexivity. Qed.

(** The step from a node to the list it heads, shared by the two
    inductions below. *)
Lemma try_update_step p f (c : node) (r : list node) :
  try_update_result p f (self_and_descendants c)
    (option_map self_and_descendants (try_update_node p f c)) ->
  try_update_result p f (descendants r)
    (option_map descendants (try_update p f r)) ->
  try_update_result p f (descendants (c :: r))
    (option_map descendants (try_update p f (c :: r))).
Proof.
  intros Hc Hr. cbn [try_update]. rewrite descendants_cons.
  destruct (try_update_node p f c) as [c'|]; cbn [option_map] in *.
  - destruct Hc as (m & pre & pre' & post & H1 & H2 & H3 & H4 & H5).
    exists m, pre, pre', (post ++ descendants r).
    rewrite descendants_cons, H1, H2, <- !app_assoc. auto.
  - cbn [try_update_result] in Hc.
    destruct (try_update p f r) as [r'|]; cbn [option_map] in *.
    + destruct Hr as (m & pre & pre' & post & H1 & H2 & H3 & H4 & H5).
      exists m, (self_and_descendants c ++ pre),
        (self_and_descendants c ++ pre'), post.
      rewrite descendants_cons, H1, H2, <- !app_assoc, !map_app, H3.
      rewrite find_app, Hc. auto.
    + cbn [try_update_result] in *. rewrite find_app, Hc. exact Hr.
Qed.

Lemma try_update_node_spec p f (n : node) :
  try_update_result p f (self_and_descendants n)
    (option_map self_and_descendants (try_update_node p f n)).
Proof.
  induction n as [nm a cs IH|t|t|t] using node_nested_ind.
  - rewrite try_update_node_Tag. destruct (p (Tag nm a cs)) eqn:Hp.
    + apply try_update_here, Hp.
    + assert (Hcs : try_update_result p f (descendants cs)
                      (option_map descendants (try_update p f cs))).
      { clear Hp. induction IH as [|c r Hc _ IHr]; [reflexivity|].
        apply try_update_step; [exact Hc|exact IHr]. }
      destruct (try_update p f cs) as [cs'|]; cbn [option_map] in *.
      * destruct Hcs as (m & pre & pre' & post & H1 & H2 & H3 & H4 & H5).
        exists m, (Tag nm a cs :: pre), (Tag nm a cs' :: pre'), post.
        rewrite !self_and_descendants_Tag, H1, H2. cbn [map shallow app].
        rewrite H3, find_leaf by exact Hp. auto.
      * cbn [try_update_result] in *.
        rewrite self_and_descendants_Tag, find_leaf by exact Hp. exact Hcs.
  - cbn [try_update_node]. destruct (p (NavigableString t)) eqn:Hp.
    + apply try_update_here, Hp.
    + simpl. rewrite Hp. reflexivity.
  - cbn [try_update_node]. destruct (p (Comment t)) eqn:Hp.
    + apply try_update_here, Hp.
    + simpl. rewrite Hp. reflexivity.
  - cbn [try_update_node]. destruct (p (Doctype t)) eqn:Hp.
    + apply try_update_here, Hp.
    + simpl. rewrite Hp. reflexivity.
Qed.

Lemma try_update_spec p f (l : list node) :
  try_update_result p f (descendants l)
    (option_map descendants (try_update p f l)).
Proof.
  induction l as [|c r IHr]; [reflexivity|].
  apply try_update_step; [apply try_update_node_spec|exact IHr].
Qed.

End TreeFacts.

Section UpdateFacts.

Lemma filter_nil_find {A : Type} (p : A -> bool) (l : list A) :
  filter p l = [] -> List.find p l = None.
Proof.
  induction l as [|x l IH]; [reflexivity|]. simpl.
  destruct (p x); [discriminate|exact IH].
Qed.

Lemma filter_shallow (q : node -> bool) (l : list node) :
  shallow_pred q -> map shallow (filter q l) = filter q (map shallow l).
Proof.
  intros Hq. induction l as [|x l IH]; [reflexivity|]. simpl.
  rewrite Hq. destruct (q x); simpl; rewrite IH; reflexivity.
Qed.

(** Two sequences with the same names and attributes have the same matches
    of a shallow predicate, up to what lies below the matches. *)
Lemma filter_nil_shallow (q : node -> bool) (a b : list node) :
  shallow_pred q -> map shallow a = map shallow b ->
  filter q a = [] -> filter q b = [].
Proof.
  intros Hq Hab Ha.
  assert (H : map shallow (filter q b) = []).
  { rewrite (filter_shallow q b Hq), <- Hab, <- (filter_shallow q a Hq), Ha.
    reflexivity. }
  destruct (filter q b); [reflexivity|discriminate].
Qed.

Lemma updated_at_find p f before after m :
  updated_at p f before after m -> List.find p before = Some m.
Proof.
  intros (pre & pre' & post & -> & _ & _ & Hpre & Hm).
  rewrite find_app, Hpre.
  destruct (self_and_descendants_head m) as [below ->]. simpl.
  rewrite Hm. reflexivity.
Qed.

Lemma updated_at_find_after p f before after m :
  shallow_pred p -> updated_at p f before after m -> p (f m) = true ->
  List.find p after = Some (f m).
Proof.
  intros Hp (pre & pre' & post & _ & -> & Hsh & Hpre & _) Hfm.
  rewrite find_app.
  rewrite (filter_nil_find p pre').
  - destruct (self_and_descendants_head (f m)) as [below ->]. simpl.
    rewrite Hfm. reflexivity.
  - apply (filter_nil_shallow p pre pre' Hp); [symmetry; exact Hsh|].
    apply find_none_filter, Hpre.
Qed.

(** The matches of a shallow predicate after an update, when there was
    none before: those inside the new subtree. *)
Lemma updated_at_filter p f q before after m :
  shallow_pred q -> updated_at p f before after m ->
  filter q before = [] ->
  filter q after = filter q (self_and_descendants (f m)).
Proof.
  intros Hq (pre & pre' & post & -> & -> & Hsh & _ & _) Hnone.
  rewrite !filter_app in Hnone.
  apply app_eq_nil in Hnone as [Hpre Hrest].
  apply app_eq_nil in Hrest as [_ Hpost].
  rewrite !filter_app, Hpost, app_nil_r.
  rewrite (filter_nil_shallow q pre pre' Hq); [reflexivity| |exact Hpre].
  symmetry. exact Hsh.
Qed.

Lemma update_first_spec p f (s : soup) (m : node) :
  find p s = Some m ->
  updated_at p f (descendants s) (descendants (update_first p f s)) m.
Proof.
  unfold find, update_first. intros Hfind.
  pose proof (try_update_spec p f s) as H.
  destruct (try_update p f s) as [s'|]; cbn [option_map try_update_result] in H.
  - destruct H as (m0 & H). pose proof (updated_at_find _ _ _ _ _ H) as Hm0.
    rewrite Hfind in Hm0. injection Hm0 as ->. exact H.
  - rewrite H in Hfind. discriminate.
Qed.

Lemma shallow_tag_named nm : shallow_pred (tag_named nm).
Proof. intros [| | |]; reflexivity. Qed.

Lemma shallow_attr_matches k m : shallow_pred (attr_matches k m).
Proof. intros [| | |]; reflexivity. Qed.

Lemma shallow_is_preview_script : shallow_pred is_preview_script.
Proof. intros [| | |]; reflexivity. Qed.

Lemma shallow_is_csp_meta : shallow_pred is_csp_meta.
Proof. intros [| | |]; reflexivity. Qed.


Lemma find_tag_named nm (l : list node) (b : node) :
  List.find (tag_named nm) l = Some b -> exists a cs, b = Tag nm a cs.
Proof.
  intros H. apply find_some in H as [_ H].
  destruct b as [x a cs| | |]; try discriminate.
  apply String.eqb_eq in H. subst. eauto.
Qed.

End UpdateFacts.

(** * Script injection *)

Section ScriptInjection.

Lemma is_preview_script_iff (n : node) :
  is_preview_script n = true <->
  exists a cs v,
    n = Tag "script" a cs /\ get_attr "src" a = Some v
    /\ (lower v = "/preview.js" \/ lower v = ("/preview.js" ++ LF)%string).
Proof.
  unfold is_preview_script, attr_matches, re_search_anchored_ci. split.
  - destruct n as [nm a cs| | |]; try discriminate. simpl.
    intros H. apply andb_prop in H as [Hn Hv].
    apply String.eqb_eq in Hn. subst nm.
    destruct (get_attr "src" a) as [v|] eqn:Hsrc; [|discriminate].
    exists a, cs, v. split; [reflexivity|]. split; [exact Hsrc|].
    apply orb_prop in Hv as [Hv|Hv]; apply String.eqb_eq in Hv; auto.
  - intros (a & cs & v & -> & Hsrc & Hv). simpl. rewrite Hsrc.
    destruct Hv as [->| ->]; reflexivity.
Qed.

Lemma filter_preview_appended nm a cs :
  filter is_preview_script (self_and_descendants (Tag nm a cs)) = [] ->
  filter is_preview_script
    (self_and_descendants (append_child preview_tag (Tag nm a cs)))
  = [preview_tag].
Proof.
  cbn [append_child]. rewrite !self_and_descendants_Tag. cbn [filter].
  replace (is_preview_script (Tag nm a (cs ++ [preview_tag])))
    with (is_preview_script (Tag nm a cs)) by reflexivity.
  destruct (is_preview_script (Tag nm a cs)); [discriminate|].
  intros H. rewrite descendants_app, filter_app, H. reflexivity.
Qed.

End ScriptInjection.

(** The cases of [ensure_script]: a preview script exists and nothing
    happens; or one is appended to the first body; or, without a body, to
    the root. *)
Lemma ensure_script_cases (s : soup) :
  match find is_preview_script s with
  | Some _ => ensure_script s = (s, false)
  | None =>
      snd (ensure_script s) = true
      /\ find_all is_preview_script (fst (ensure_script s)) = [preview_tag]
      /\ match find (tag_named "body") s with
         | Some b =>
             exists a cs body',
               b = Tag "body" a cs
               /\ body' = Tag "body" a (cs ++ [preview_tag])
               /\ find (tag_named "body") (fst (ensure_script s)) = Some body'
               /\ exists pre pre' post,
                    descendants s = pre ++ self_and_descendants b ++ post
                    /\ descendants (fst (ensure_script s))
                       = pre' ++ self_and_descendants body' ++ post
                    /\ map shallow pre' = map shallow pre
         | None => fst (ensure_script s) = s ++ [preview_tag]
         end
  end.
Proof.
  unfold ensure_script.
  destruct (find is_preview_script s) as [x|] eqn:Hscript; [reflexivity|].
  assert (Hnone : filter is_preview_script (descendants s) = [])
    by (apply find_none_filter, Hscript).
  destruct (find (tag_named "body") s) as [b|] eqn:Hbody; cbn [fst snd].
  - pose proof (update_first_spec _ (append_child preview_tag) _ _ Hbody) as Hup.
    split; [reflexivity|]. split.
    + unfold find_all.
      rewrite (updated_at_filter _ _ is_preview_script _ _ _
                 shallow_is_preview_script Hup Hnone).
      destruct (find_tag_named _ _ _ Hbody) as (a & cs & ->).
      apply filter_preview_appended.
      destruct Hup as (pre & _ & post & Hdesc & _).
      rewrite Hdesc, !filter_app in Hnone.
      apply app_eq_nil in Hnone as [_ Hnone].
      apply app_eq_nil in Hnone as [Hnone _]. exact Hnone.
    + destruct (find_tag_named _ _ _ Hbody) as (a & cs & ->).
      exists a, cs, (Tag "body" a (cs ++ [preview_tag])).
      split; [reflexivity|]. split; [reflexivity|]. split.
      * apply (updated_at_find_after _ _ _ _ _ (shallow_tag_named "body") Hup).
        reflexivity.
      * destruct Hup as (pre & pre' & post & H1 & H2 & H3 & _).
        exists pre, pre', post. auto.
  - split; [reflexivity|]. split; [|reflexivity].
    unfold find_all. rewrite descendants_app, filter_app, Hnone. reflexivity.
Qed.


(** C6 (as amended).  A script element counts as the preview script when its
    src, in lower case, is the preview path or the preview path followed by
    one line feed.  If such an element exists anywhere, [ensure_script]
    returns the document as it is with the flag false.  Otherwise the flag
    is true, the result holds exactly one preview script, the new element
    (only a src attribute, no children), and that element is the last child
    of the first body element when there is one (nothing else changes but
    the subtree of that body), else the last child of the root. *)
Theorem ensure_script_spec (s : soup) :
  (forall n, is_preview_script n = true <->
     exists a cs v,
       n = Tag "script" a cs /\ get_attr "src" a = Some v
       /\ (lower v = "/preview.js"
           \/ lower v = ("/preview.js" ++ LF)%string))
  /\ match find is_preview_script s with
     | Some _ => ensure_script s = (s, false)
     | None =>
         snd (ensure_script s) = true
         /\ find_all is_preview_script (fst (ensure_script s))
            = [Tag "script" [("src", "/preview.js")] []]
         /\ match find (tag_named "body") s with
            | Some b =>
                exists a cs body',
                  b = Tag "body" a cs
                  /\ body' = Tag "body" a (cs ++ [Tag "script" [("src", "/preview.js")] []])
                  /\ find (tag_named "body") (fst (ensure_script s)) = Some body'
                  /\ exists pre pre' post,
                       descendants s = pre ++ self_and_descendants b ++ post
                       /\ descendants (fst (ensure_script s))
                          = pre' ++ self_and_descendants body' ++ post
                       /\ map shallow pre' = map shallow pre
            | None =>
                fst (ensure_script s)
                = s ++ [Tag "script" [("src", "/preview.js")] []]
            end
     end.
Proof.
  split; [exact is_preview_script_iff|exact (ensure_script_cases s)].
Qed.

(** C6 (as stated) fails: a script element whose src is the preview path
    followed by a line feed does not equal the path, whatever the letter
    case, and yet no script element is appended and the flag is false. *)
Lemma ensure_script_trailing_newline :
  let doc := [Tag "body" [] [Tag "script" [("src", ("/preview.js" ++ LF)%string)] []]] in
  find is_preview_script_exact doc = None
  /\ ensure_script doc = (doc, false).
Proof. split; reflexivity. Qed.

(** * Link hardening *)

Section LinkHardening.

Lemma get_set_same k v (a : attrs) : get_attr k (set_attr k v a) = Some v.
Proof.
  induction a as [|[k' v'] a IH]; simpl.
  - rewrite String.eqb_refl. reflexivity.
  - destruct (String.eqb k' k) eqn:E; simpl.
    + rewrite String.eqb_refl. reflexivity.
    + rewrite E. exact IH.
Qed.

Lemma get_set_other k k' v (a : attrs) :
  k <> k' -> get_attr k' (set_attr k v a) = get_attr k' a.
Proof.
  intros Hne. induction a as [|[x y] a IH]; simpl.
  - apply String.eqb_neq in Hne. rewrite Hne. reflexivity.
  - destruct (String.eqb x k) eqn:E; simpl.
    + apply String.eqb_eq in E. subst x.
      apply String.eqb_neq in Hne. rewrite Hne. reflexivity.
    + destruct (String.eqb x k'); [reflexivity|exact IH].
Qed.

(** What one turn of the loop does to the attributes of an anchor. *)
Lemma harden_attrs_spec (a : attrs) :
  (has_attr "target" a = true -> harden_attrs a = a)
  /\ (has_attr "target" a = false ->
      get_attr "target" (harden_attrs a) = Some "_blank"
      /\ get_attr "rel" (harden_attrs a) = Some "noopener noreferrer"
      /\ forall k, k <> "target" -> k <> "rel" ->
           get_attr k (harden_attrs a) = get_attr k a).
Proof.
  unfold harden_attrs. split; intros H; rewrite H; [reflexivity|].
  split; [|split].
  - rewrite get_set_other by discriminate. apply get_set_same.
  - apply get_set_same.
  - intros k Ht Hr. rewrite !get_set_other by congruence. reflexivity.
Qed.

Lemma has_target_hardened (a : attrs) :
  has_attr "target" (harden_attrs a) = true.
Proof.
  destruct (has_attr "target" a) eqn:H.
  - destruct (harden_attrs_spec a) as [-> _]; assumption.
  - destruct (harden_attrs_spec a) as [_ Hs].
    destruct (Hs H) as [Ht _]. unfold has_attr. rewrite Ht. reflexivity.
Qed.

Lemma harden_node_Tag nm a cs :
  harden_node (Tag nm a cs)
  = let '(cs', below) := harden_list cs in
    if String.eqb nm "a" && negb (has_attr "target" a)
    then (Tag nm (harden_attrs a) cs', true)
    else (Tag nm a cs', below).
Proof.
  cbn [harden_node].
  match goal with
  | |- (let '(_, _) := ?x in _) = _ =>
      replace x with (harden_list cs); [reflexivity|]
  end.
  induction cs as [|c r IH]; [reflexivity|].
  cbn [harden_list]. rewrite IH. reflexivity.
Qed.

Lemma harden_list_map (l : list node) :
  harden_list l
  = (map hardened l, existsb (fun n => snd (harden_node n)) l).
Proof.
  induction l as [|c r IH]; [reflexivity|].
  cbn [harden_list map existsb]. rewrite IH. unfold hardened.
  destruct (harden_node c). reflexivity.
Qed.

Lemma hardened_Tag nm a cs :
  hardened (Tag nm a cs)
  = Tag nm (if String.eqb nm "a" then harden_attrs a else a) (map hardened cs).
Proof.
  unfold hardened at 1. rewrite harden_node_Tag, harden_list_map.
  unfold harden_attrs. destruct (String.eqb nm "a"); simpl;
    [destruct (has_attr "target" a)|]; reflexivity.
Qed.

Lemma harden_flag_Tag nm a cs :
  snd (harden_node (Tag nm a cs))
  = needs_target (Tag nm a cs) || existsb (fun n => snd (harden_node n)) cs.
Proof.
  rewrite harden_node_Tag, harden_list_map. unfold needs_target. simpl.
  destruct (String.eqb nm "a" && negb (has_attr "target" a)); reflexivity.
Qed.

Lemma existsb_flat_map {A B : Type} (q : B -> bool) (g : A -> list B) (l : list A) :
  existsb q (flat_map g l) = existsb (fun x => existsb q (g x)) l.
Proof.
  induction l as [|x l IH]; [reflexivity|]. simpl.
  rewrite existsb_app, IH. reflexivity.
Qed.

(** The loop maps the sequence of descendants node by node; its flag tells
    whether an anchor without target occurs in it. *)
Lemma harden_node_descendants (n : node) :
  self_and_descendants (hardened n) = map hardened (self_and_descendants n)
  /\ snd (harden_node n) = existsb needs_target (self_and_descendants n).
Proof.
  induction n as [nm a cs IH|t|t|t] using node_nested_ind;
    try (split; reflexivity).
  rewrite hardened_Tag, harden_flag_Tag, !self_and_descendants_Tag.
  cbn [map existsb]. rewrite hardened_Tag. split.
  - f_equal. unfold descendants. rewrite flat_map_concat_map, map_map.
    rewrite flat_map_concat_map, concat_map, map_map. f_equal.
    apply map_ext_Forall. eapply Forall_impl; [|exact IH].
    intros c [Hc _]. exact Hc.
  - f_equal. unfold descendants. rewrite existsb_flat_map.
    induction IH as [|c r [_ Hc] _ IHr]; [reflexivity|].
    simpl. rewrite Hc, IHr. reflexivity.
Qed.

Lemma add_target_blank_descendants (s : soup) :
  descendants (fst (add_target_blank s)) = map hardened (descendants s)
  /\ snd (add_target_blank s) = existsb needs_target (descendants s).
Proof.
  unfold add_target_blank. rewrite harden_list_map. cbn [fst snd].
  unfold descendants. split.
  - rewrite flat_map_concat_map, map_map.
    rewrite flat_map_concat_map, concat_map, map_map. f_equal.
    apply map_ext. intros c. apply harden_node_descendants.
  - rewrite existsb_flat_map. induction s as [|c r IH]; [reflexivity|].
    simpl. rewrite IH. f_equal. apply harden_node_descendants.
Qed.

Lemma tag_named_hardened nm (n : node) :
  tag_named nm (hardened n) = tag_named nm n.
Proof. destruct n; [rewrite hardened_Tag|..]; reflexivity. Qed.

Lemma filter_map_commute {A : Type} (q : A -> bool) (g : A -> A) (l : list A) :
  (forall x, q (g x) = q x) -> filter q (map g l) = map g (filter q l).
Proof.
  intros H. induction l as [|x l IH]; [reflexivity|]. simpl.
  rewrite H. destruct (q x); simpl; rewrite IH; reflexivity.
Qed.

End LinkHardening.

(** C7.  [add_target_blank] keeps the anchors of the document in place and
    number; an anchor that has a target attribute, whatever its value,
    keeps its attributes; any other anchor gets target=_blank and
    rel=noopener noreferrer and keeps its other attributes; a node that is
    not an anchor keeps its name and attributes; and the flag is true
    exactly when some anchor lacked a target. *)
Theorem add_target_blank_spec (s : soup) :
  let s' := fst (add_target_blank s) in
  map node_attrs (anchors s')
  = map (fun n => harden_attrs (node_attrs n)) (anchors s)
  /\ (forall a : attrs,
        (has_attr "target" a = true -> harden_attrs a = a)
        /\ (has_attr "target" a = false ->
            get_attr "target" (harden_attrs a) = Some "_blank"
            /\ get_attr "rel" (harden_attrs a) = Some "noopener noreferrer"
            /\ forall k, k <> "target" -> k <> "rel" ->
                 get_attr k (harden_attrs a) = get_attr k a))
  /\ map shallow (filter (fun n => negb (tag_named "a" n)) (descendants s'))
     = map shallow (filter (fun n => negb (tag_named "a" n)) (descendants s))
  /\ snd (add_target_blank s) = existsb lacks_target (anchors s).
Proof.
  destruct (add_target_blank_descendants s) as [Hdesc Hflag].
  cbn zeta. unfold anchors, find_all. rewrite Hdesc, Hflag.
  clear Hdesc Hflag. generalize (descendants s) as d. intros d.
  split; [|split; [exact harden_attrs_spec|split]].
  - rewrite filter_map_commute by (apply tag_named_hardened).
    rewrite map_map. induction d as [|n l IH]; [reflexivity|].
    simpl. destruct n as [nm a cs| | |]; simpl; try exact IH.
    destruct (String.eqb nm "a") eqn:E; [|exact IH].
    simpl. rewrite hardened_Tag, E, IH. reflexivity.
  - rewrite filter_map_commute
      by (intros x; rewrite tag_named_hardened; reflexivity).
    rewrite map_map. induction d as [|n l IH]; [reflexivity|].
    simpl. destruct n as [nm a cs| | |]; simpl; try (rewrite IH; reflexivity).
    destruct (String.eqb nm "a") eqn:E; [exact IH|].
    simpl. rewrite hardened_Tag, E, IH. reflexivity.
  - induction d as [|n l IH]; [reflexivity|].
    simpl. unfold needs_target at 1.
    destruct (tag_named "a" n); simpl; rewrite IH; reflexivity.
Qed.

(** * The CSP meta mutator *)

Section CspFacts.

Variable unescape : string -> string.

Lemma lstrip_fixed (s : string) :
  head_isspace s = false -> lstrip_by isspace s = s.
Proof. destruct s as [|c r]; [reflexivity|]. simpl. intros ->. reflexivity. Qed.

Lemma rstrip_idempotent p (s : string) :
  rstrip_by p (rstrip_by p s) = rstrip_by p s.
Proof.
  induction s as [|c r IH]; [reflexivity|]. simpl.
  destruct (rstrip_by p r) as [|x y] eqn:Hr.
  - destruct (p c) eqn:Hc; [reflexivity|]. simpl. rewrite Hc. reflexivity.
  - cbn [rstrip_by]. cbn [rstrip_by] in IH. rewrite IH. reflexivity.
Qed.

Lemma strip_idempotent (s : string) : strip (strip s) = strip s.
Proof.
  unfold strip, strip_by.
  rewrite (lstrip_fixed (rstrip_by isspace (lstrip_by isspace s))).
  - apply rstrip_idempotent.
  - apply rstrip_head, lstrip_head.
Qed.

Lemma parse_directives_stripped (decoded : string) :
  Forall (fun d => nonempty d = true /\ strip d = d) (parse_directives decoded).
Proof.
  apply Forall_forall. intros d H. unfold parse_directives in H.
  apply in_map_iff in H as (x & <- & Hx).
  apply filter_In in Hx as [_ Hx]. split; [exact Hx|apply strip_idempotent].
Qed.

Lemma existsb_script_src_In (ds : list string) (d : string) :
  In d ds -> is_script_src d = true -> existsb is_script_src ds = true.
Proof. intros Hin Hd. apply existsb_exists. eauto. Qed.

Lemma has_self_sources_with_self (d : string) :
  has_self (sources_with_self d) = true.
Proof.
  unfold sources_with_self. destruct (has_self (tl (split_ws d))) eqn:H.
  - exact H.
  - unfold has_self. rewrite existsb_app. simpl. apply orb_true_r.
Qed.

Lemma is_csp_meta_Tag (m : node) :
  is_csp_meta m = true -> exists nm a cs, m = Tag nm a cs.
Proof. destruct m; try discriminate. eauto. Qed.

Lemma is_csp_meta_set_content v (m : node) :
  is_csp_meta (set_attribute "content" v m) = is_csp_meta m.
Proof.
  destruct m as [nm a cs| | |]; try reflexivity.
  unfold is_csp_meta, attr_matches. simpl.
  rewrite get_set_other by discriminate. reflexivity.
Qed.

Lemma content_set_content v (m : node) :
  is_csp_meta m = true ->
  node_attr "content" (set_attribute "content" v m) = Some v.
Proof.
  intros H. destruct (is_csp_meta_Tag m H) as (nm & a & cs & ->).
  simpl. apply get_set_same.
Qed.

(** The mutator on a document whose policy element has a content
    attribute: the flag, the frame, and the element found afterwards. *)
Lemma adjust_csp_meta_found (s : soup) (meta : node) (raw : string) :
  find is_csp_meta s = Some meta -> node_attr "content" meta = Some raw ->
  let new := rewrite_content unescape raw in
  snd (adjust_csp_meta unescape s) = negb (String.eqb new raw)
  /\ (new = raw -> fst (adjust_csp_meta unescape s) = s)
  /\ (new <> raw ->
      find is_csp_meta (fst (adjust_csp_meta unescape s))
      = Some (set_attribute "content" new meta))
  /\ exists meta',
       find is_csp_meta (fst (adjust_csp_meta unescape s)) = Some meta'
       /\ node_attr "content" meta' = Some new.
Proof.
  intros Hfind Hraw. cbn zeta. unfold adjust_csp_meta. rewrite Hfind, Hraw.
  assert (Hmeta : is_csp_meta meta = true).
  { unfold find in Hfind. apply find_some in Hfind. apply Hfind. }
  destruct (String.eqb (rewrite_content unescape raw) raw) eqn:E; cbn [fst snd].
  - apply String.eqb_eq in E. repeat split; try congruence.
    exists meta. rewrite E. auto.
  - apply String.eqb_neq in E.
    assert (Hafter : find is_csp_meta
              (update_first is_csp_meta
                 (set_attribute "content" (rewrite_content unescape raw)) s)
            = Some (set_attribute "content" (rewrite_content unescape raw) meta)).
    { apply (updated_at_find_after is_csp_meta
               (set_attribute "content" (rewrite_content unescape raw))
               (descendants s)); [exact shallow_is_csp_meta| |].
      - apply update_first_spec, Hfind.
      - rewrite is_csp_meta_set_content. exact Hmeta. }
    repeat split; try congruence.
    eexists. split; [exact Hafter|]. apply content_set_content, Hmeta.
Qed.

End CspFacts.

(** The entity branch, on the value the tree holds: when that value
    contains the five characters &#39;, the value the attribute holds after
    the mutator ran is the joined directive string with every apostrophe
    replaced by &#39; in one pass over the whole string, and it contains
    no apostrophe; when it does not, the value is the joined string
    itself.  (The parser decodes character references, so the value in
    the tree contains these characters only when the file spells the
    ampersand itself as a reference.) *)
Lemma csp_entity_style (unescape : string -> string)
    (s : soup) (meta : node) (raw : string) :
  find is_csp_meta s = Some meta -> node_attr "content" meta = Some raw ->
  let joined := join "; " (new_directives_of (unescape raw)) in
  exists meta' final,
    find is_csp_meta (fst (adjust_csp_meta unescape s)) = Some meta'
    /\ node_attr "content" meta' = Some final
    /\ (contains "&#39;" raw = true ->
        final = replace_char "'" "&#39;" joined /\ contains "'" final = false)
    /\ (contains "&#39;" raw = false -> final = joined).
Proof.
  intros Hfind Hraw joined.
  destruct (adjust_csp_meta_found unescape s meta raw Hfind Hraw)
    as (_ & _ & _ & meta' & Hfind' & Hcontent).
  exists meta', (rewrite_content unescape raw).
  split; [exact Hfind'|]. split; [exact Hcontent|].
  unfold rewrite_content. fold joined.
  split; intros H; rewrite H; [|reflexivity].
  split; [reflexivity|]. apply replace_char_clears. reflexivity.
Qed.

(** An instance: a tree whose policy value holds the characters &#39;. *)
Lemma csp_entity_style_witness :
  let s := [Tag "meta" [("http-equiv", "Content-Security-Policy");
                        ("content", "default-src &#39;none&#39;")] []] in
  exists meta' final,
    find is_csp_meta (fst (adjust_csp_meta unescape_apos s)) = Some meta'
    /\ node_attr "content" meta' = Some final
    /\ (contains "&#39;" "default-src &#39;none&#39;" = true ->
        final = replace_char "'" "&#39;"
                  (join "; " (new_directives_of
                                (unescape_apos "default-src &#39;none&#39;")))
        /\ contains "'" final = false)
    /\ (contains "&#39;" "default-src &#39;none&#39;" = false ->
        final = join "; " (new_directives_of
                             (unescape_apos "default-src &#39;none&#39;"))).
Proof.
  exact (csp_entity_style unescape_apos
           [Tag "meta" [("http-equiv", "Content-Security-Policy");
                        ("content", "default-src &#39;none&#39;")] []]
           (Tag "meta" [("http-equiv", "Content-Security-Policy");
                        ("content", "default-src &#39;none&#39;")] [])
           "default-src &#39;none&#39;" eq_refl eq_refl).
Defined.

(** C3 fails on the code.  The claim is about a policy whose text in the
    file contains the reference &#39;.  html.parser decodes the character
    references of every attribute value before the tree is built, so the
    value the mutator reads from the tree is the decoded text, and the test
    for &#39; on line 170 is made on that decoded value.  Whenever the
    decoded value holds no &#39; any more and has no script-src directive,
    the attribute after the mutator ran holds the plain joined string: its
    last directive is the appended script-src 'self' with literal
    apostrophes, the value contains a literal apostrophe, and it is not
    the string the replacement by &#39; would have given. *)
Theorem csp_entity_style_lost (unescape : string -> string)
    (written : string) (s : soup) (meta : node) :
  let raw := unescape written in
  find is_csp_meta s = Some meta -> node_attr "content" meta = Some raw ->
  contains "&#39;" written = true ->
  contains "&#39;" raw = false ->
  existsb is_script_src (parse_directives (unescape raw)) = false ->
  exists meta' final,
    find is_csp_meta (fst (adjust_csp_meta unescape s)) = Some meta'
    /\ node_attr "content" meta' = Some final
    /\ final = join "; " (new_directives_of (unescape raw))
    /\ last (new_directives_of (unescape raw)) "" = "script-src 'self'"
    /\ contains "'" final = true
    /\ final <> replace_char "'" "&#39;" final.
Proof.
  intros raw Hfind Hraw _ Hplain Habsent.
  destruct (adjust_csp_meta_found unescape s meta raw Hfind Hraw)
    as (_ & _ & _ & meta' & Hfind' & Hcontent).
  exists meta', (rewrite_content unescape raw).
  split; [exact Hfind'|]. split; [exact Hcontent|].
  unfold rewrite_content. rewrite Hplain.
  rewrite new_directives_closed_form. cbn zeta. rewrite Habsent.
  assert (Hapos : contains "'"
            (join "; " (map rewritten_directive (parse_directives (unescape raw))
                        ++ ["script-src 'self'"])) = true)
    by (apply contains_char_join_last; reflexivity).
  split; [reflexivity|]. split; [apply last_last|]. split; [exact Hapos|].
  intros Heq. rewrite Heq, replace_char_clears in Hapos by reflexivity.
  discriminate Hapos.
Qed.

(** The failing input of C3: the policy written in the file as
    default-src &#39;none&#39;.  The tree holds default-src 'none'; the
    mutator sets the attribute to default-src 'none'; script-src 'self',
    with literal apostrophes, and reports a change. *)
Lemma csp_entity_style_lost_witness :
  let written := "default-src &#39;none&#39;" in
  let s := [Tag "meta" [("http-equiv", "Content-Security-Policy");
                        ("content", unescape_apos written)] []] in
  contains "&#39;" written = true
  /\ unescape_apos written = "default-src 'none'"
  /\ adjust_csp_meta unescape_apos s
     = ([Tag "meta" [("http-equiv", "Content-Security-Policy");
                     ("content", "default-src 'none'; script-src 'self'")] []],
        true)
  /\ exists meta' final,
       find is_csp_meta (fst (adjust_csp_meta unescape_apos s)) = Some meta'
       /\ node_attr "content" meta' = Some final
       /\ final = join "; " (new_directives_of
                               (unescape_apos (unescape_apos written)))
       /\ last (new_directives_of (unescape_apos (unescape_apos written))) ""
          = "script-src 'self'"
       /\ contains "'" final = true
       /\ final <> replace_char "'" "&#39;" final.
Proof.
  split; [reflexivity|]. split; [reflexivity|]. split; [reflexivity|].
  exact (csp_entity_style_lost unescape_apos "default-src &#39;none&#39;"
           [Tag "meta" [("http-equiv", "Content-Security-Policy");
                        ("content", "default-src 'none'")] []]
           (Tag "meta" [("http-equiv", "Content-Security-Policy");
                        ("content", "default-src 'none'")] [])
           eq_refl eq_refl eq_refl eq_refl eq_refl).
Defined.

(** The round-trip example: a policy that already allows 'self' is left
    as it is and the flag is false. *)
Example csp_round_trip_unchanged :
  let s := [Tag "meta" [("http-equiv", "Content-Security-Policy");
                        ("content", "script-src 'self' https://x.com")] []] in
  adjust_csp_meta unescape_apos s = (s, false).
Proof. reflexivity. Qed.

(** C5 (as amended).  When no directive of the list has a name that starts
    with script-src, letter case aside, the new list is the old one
    followed by the one directive script-src 'self'; the attribute value is
    that list joined by a semicolon and a space, in the entity style of the
    original; the directives are the pieces of the unescaped value between
    semicolons, stripped of surrounding whitespace, without the empty ones,
    in their order. *)
Theorem csp_append_when_absent (unescape : string -> string) (raw : string) :
  let ds := parse_directives (unescape raw) in
  (forall d, In d ds -> name_starts_script_src d = false) ->
  new_directives_of (unescape raw) = ds ++ ["script-src 'self'"]
  /\ rewrite_content unescape raw
     = (let joined := join "; " (ds ++ ["script-src 'self'"]) in
        if contains "&#39;" raw then replace_char "'" "&#39;" joined
        else joined)
  /\ ds = map strip (filter (fun p => nonempty (strip p))
                       (split_on ";" (unescape raw)))
  /\ Forall (fun d => nonempty d = true /\ strip d = d) ds.
Proof.
  intros ds Hnone.
  assert (Hex : existsb is_script_src ds = false).
  { destruct (existsb is_script_src ds) eqn:E; [|reflexivity].
    apply existsb_exists in E as (d & Hin & Hd).
    rewrite is_script_src_name in Hd
      by (apply (parse_directives_In _ _ Hin)).
    rewrite (Hnone d Hin) in Hd. discriminate. }
  assert (Hnew : new_directives_of (unescape raw) = ds ++ ["script-src 'self'"]).
  { rewrite new_directives_closed_form. cbn zeta. fold ds.
    rewrite Hex, map_rewritten_id by exact Hex. reflexivity. }
  split; [exact Hnew|]. split; [|split].
  - unfold rewrite_content. rewrite Hnew. reflexivity.
  - reflexivity.
  - apply parse_directives_stripped.
Qed.

(** A witness for C5: the policy of the round-trip example without
    script-src. *)
Lemma csp_append_when_absent_witness :
  new_directives_of (unescape_apos "default-src 'none'; img-src *")
  = ["default-src 'none'"; "img-src *"; "script-src 'self'"].
Proof.
  refine (proj1 (csp_append_when_absent unescape_apos
                   "default-src 'none'; img-src *" _)).
  intros d [<-|[<-|[]]]; reflexivity.
Defined.

(** C5 (as stated) fails: the list holds one directive, named
    script-src-elem, so it holds no directive named script-src; the rewrite
    appends nothing and replaces the directive. *)
Lemma csp_prefix_not_appended :
  let ds := parse_directives "script-src-elem x" in
  forallb (fun d => negb (name_is_script_src d)) ds = true
  /\ new_directives_of "script-src-elem x" = ["script-src x 'self'"]
  /\ new_directives_of "script-src-elem x" <> ds ++ ["script-src 'self'"].
Proof. repeat split. discriminate. Qed.

(** C9.  A directive of the list whose name starts with script-src, letter
    case aside, passes the test of the loop; it is emitted as the
    lower-case name script-src followed by its source tokens, with 'self'
    appended when no token is self once quotes are stripped, so the name it
    had is gone and its tokens include self; and the new list is the old
    one rewritten directive by directive, with nothing appended. *)
Theorem csp_prefix_directive (decoded d : string) :
  In d (parse_directives decoded) -> name_starts_script_src d = true ->
  is_script_src d = true
  /\ rewritten_directive d
     = ("script-src " ++ join " " (sources_with_self d))%string
  /\ split_ws (rewritten_directive d) = "script-src" :: sources_with_self d
  /\ has_self (tl (split_ws (rewritten_directive d))) = true
  /\ new_directives_of decoded
     = map rewritten_directive (parse_directives decoded)
  /\ length (new_directives_of decoded) = length (parse_directives decoded).
Proof.
  intros Hin Hname.
  assert (Hd : is_script_src d = true).
  { rewrite is_script_src_name; [exact Hname|].
    apply (parse_directives_In _ _ Hin). }
  assert (Hnew : new_directives_of decoded
                 = map rewritten_directive (parse_directives decoded)).
  { rewrite new_directives_closed_form. cbn zeta.
    rewrite (existsb_script_src_In _ d Hin Hd). reflexivity. }
  split; [exact Hd|]. split; [|split; [|split; [|split]]].
  - unfold rewritten_directive. rewrite Hd. reflexivity.
  - apply split_ws_rewritten, Hd.
  - rewrite (split_ws_rewritten d Hd). apply has_self_sources_with_self.
  - exact Hnew.
  - rewrite Hnew. apply length_map.
Qed.

(** A witness for C9: script-src-elem and SCRIPT-SRC in one policy. *)
Lemma csp_prefix_directive_witness :
  rewritten_directive "script-src-elem https://x.com"
  = "script-src https://x.com 'self'"
  /\ new_directives_of "script-src-elem https://x.com; SCRIPT-SRC 'self'"
     = ["script-src https://x.com 'self'"; "script-src 'self'"].
Proof.
  pose proof (csp_prefix_directive
                "script-src-elem https://x.com; SCRIPT-SRC 'self'"
                "script-src-elem https://x.com"
                (or_introl eq_refl) eq_refl) as H.
  destruct H as (_ & H2 & _ & _ & H5 & _).
  split; [exact H2|exact H5].
Defined.

(** * Comments and the pipeline *)

Section CommentFacts.

Lemma extract_comments_node_Tag nm a cs :
  extract_comments_node (Tag nm a cs) = Tag nm a (extract_comments cs).
Proof.
  cbn [extract_comments_node]. f_equal.
Qed.

Lemma extract_comments_node_free (n : node) :
  is_comment n = false ->
  filter is_comment (self_and_descendants (extract_comments_node n)) = [].
Proof.
  induction n as [nm a cs IH|t|t|t] using node_nested_ind;
    intros Hn; try reflexivity; try discriminate.
  rewrite extract_comments_node_Tag, self_and_descendants_Tag.
  cbn [filter is_comment]. clear Hn.
  induction IH as [|c r Hc _ IHr]; [reflexivity|].
  cbn [extract_comments]. destruct (is_comment c) eqn:E; [exact IHr|].
  rewrite descendants_cons, filter_app, (Hc eq_refl). exact IHr.
Qed.

Lemma extract_comments_free (l : list node) : comment_free (extract_comments l).
Proof.
  unfold comment_free, find_all.
  induction l as [|c r IH]; [reflexivity|].
  cbn [extract_comments]. destruct (is_comment c) eqn:E; [exact IH|].
  rewrite descendants_cons, filter_app, IH, app_nil_r.
  apply extract_comments_node_free, E.
Qed.








Lemma mutate_flag unescape (s : soup) :
  snd (mutate unescape s)
  = snd (adjust_body s)
    || snd (adjust_csp_meta unescape (fst (adjust_body s))).
Proof.
  unfold mutate. destruct (adjust_body s) as [s1 b]. cbn [fst snd].
  destruct (adjust_csp_meta unescape s1). reflexivity.
Qed.

End CommentFacts.



(** * The encoding resolver *)

Section EncodingFacts.

Variable text : Type.
Variable decode_utf8 : list byte -> option text.
Variable decode : string -> list byte -> option text.
Variable decode_utf8_replace : list byte -> text.

(** Bytes that are UTF-8 decode in the first tier, whatever the detector. *)
Lemma read_file_smart_utf8 (d : detector) (raw : list byte) (t : text) :
  decode_utf8 raw = Some t ->
  read_file_smart text decode_utf8 decode decode_utf8_replace d raw = Ok t.
Proof. intros H. unfold read_file_smart. rewrite H. reflexivity. Qed.

(** With chardet, or with no detector, the resolver always returns text,
    by the three tiers. *)
Lemma read_file_smart_total (d : detector) (raw : list byte) :
  (forall f, d <> CharsetNormalizer f) ->
  read_file_smart text decode_utf8 decode decode_utf8_replace d raw
  = Ok match decode_utf8 raw with
       | Some t => t
       | None =>
           match d with
           | Chardet detect =>
               match accepted_encoding (detect raw) with
               | Some enc =>
                   match decode enc raw with
                   | Some t => t
                   | None => decode_utf8_replace raw
                   end
               | None => decode_utf8_replace raw
               end
           | _ => decode_utf8_replace raw
           end
       end.
Proof.
  intros Hd. unfold read_file_smart.
  destruct (decode_utf8 raw); [reflexivity|].
  destruct d as [f|detect|]; [destruct (Hd f); reflexivity| |reflexivity].
  destruct (accepted_encoding (detect raw)); [|reflexivity].
  destruct (decode _ raw); reflexivity.
Qed.

(** The guess of the detector is accepted exactly when it names an
    encoding and the confidence is above one half. *)
Lemma accepted_encoding_iff (r : detection) (enc : string) :
  accepted_encoding r = Some enc <->
  det_encoding r = Some enc /\ enc <> ""
  /\ (1 # 2 < match det_confidence r with Some c => c | None => 0 end)%Q.
Proof.
  unfold accepted_encoding. destruct (det_encoding r) as [e|].
  - destruct (nonempty e) eqn:He; simpl.
    + destruct (Qle_bool _ (1 # 2)) eqn:Hq; simpl.
      * apply Qle_bool_iff in Hq. split; [discriminate|].
        intros (_ & _ & Hlt). exfalso. apply (Qlt_not_le _ _ Hlt Hq).
      * split.
        -- intros [= ->]. repeat split.
           ++ destruct enc; [discriminate|congruence].
           ++ apply Qnot_le_lt. intros Hle. apply Qle_bool_iff in Hle. congruence.
        -- intros ([= ->] & _). reflexivity.
    + destruct e; [|discriminate]. split; [discriminate|].
      intros ([= <-] & Hne & _). congruence.
  - split; [discriminate|]. intros ([=] & _).
Qed.

(** With charset_normalizer bound and bytes that are not UTF-8, the read
    of the detector's answer raises. *)
Lemma read_file_smart_raises (f : list byte -> CharsetMatches) (raw : list byte) :
  decode_utf8 raw = None ->
  read_file_smart text decode_utf8 decode decode_utf8_replace
    (CharsetNormalizer f) raw = Raise AttributeError.
Proof. intros H. unfold read_file_smart. rewrite H. reflexivity. Qed.

End EncodingFacts.

(** C8 fails on the code.  With [detect_encoding] bound to
    [charset_normalizer.from_bytes], the first binding the import block
    tries, the one byte 0xFF is not UTF-8 and the resolver raises
    AttributeError instead of returning text, whatever the codecs do. *)
Theorem read_file_smart_attribute_error
    (decode : string -> list byte -> option (list N))
    (decode_utf8_replace : list byte -> list N)
    (from_bytes : list byte -> CharsetMatches) :
  utf8_strict [xff] = None
  /\ read_file_smart (list N) utf8_strict decode decode_utf8_replace
       (CharsetNormalizer from_bytes) [xff]
     = Raise AttributeError.
Proof. split; reflexivity. Qed.

(** * The combined markup mutator on the end-to-end scenario *)

(** C2 fails on the code.  On the scenario document both sub-operations
    have work to do, yet one pass of [adjust_body] injects the script and
    leaves the anchor as it was: the call of [add_target_blank] is skipped
    once [ensure_script] has returned true. *)
Theorem adjust_body_skips_links :
  snd (ensure_script scenario_doc) = true
  /\ snd (add_target_blank scenario_doc) = true
  /\ adjust_body scenario_doc
     = ([Tag "body" []
           [Tag "a" [("href", "x")] [NavigableString "l"];
            Tag "script" [("src", "/preview.js")] []]], true)
  /\ anchors (fst (adjust_body scenario_doc))
     = [Tag "a" [("href", "x")] [NavigableString "l"]].
Proof. repeat split. Qed.

(** C1 fails on the code.  On the scenario document the first pass of the
    two mutators injects the script and reports a change; a second pass on
    the result reports a change again and gives a different tree, the one
    with the hardened anchor. *)
Theorem second_pass_changes (unescape : string -> string) :
  let first := mutate unescape scenario_doc in
  let second := mutate unescape (fst first) in
  snd first = true
  /\ snd second = true
  /\ fst second
     = [Tag "body" []
          [Tag "a" [("href", "x"); ("target", "_blank");
                    ("rel", "noopener noreferrer")] [NavigableString "l"];
           Tag "script" [("src", "/preview.js")] []]]
  /\ fst second <> fst first.
Proof. repeat split. discriminate. Qed.

(** * Each markup sub-operation alone is idempotent *)

Section SubOperationIdempotence.

Lemma find_some_filter {A : Type} (p : A -> bool) (l : list A) (x : A) (r : list A) :
  filter p l = x :: r -> List.find p l = Some x.
Proof.
  induction l as [|y l IH]; [discriminate|]. simpl.
  destruct (p y); [intros [= -> _]; reflexivity|exact IH].
Qed.

(** X6.  A second run of [ensure_script] finds the script and changes
    nothing: it returns the same document with the flag false. *)
Lemma ensure_script_idempotent (s : soup) :
  ensure_script (fst (ensure_script s)) = (fst (ensure_script s), false).
Proof.
  pose proof (ensure_script_cases s) as H.
  destruct (find is_preview_script s) as [x|] eqn:Hfind.
  - rewrite H. cbn [fst]. unfold ensure_script. rewrite Hfind. reflexivity.
  - destruct H as (_ & Hall & _). unfold find_all in Hall.
    apply find_some_filter in Hall.
    unfold ensure_script at 1. unfold find at 1. rewrite Hall. reflexivity.
Qed.

Lemma needs_target_hardened (n : node) : needs_target (hardened n) = false.
Proof.
  destruct n as [nm a cs| | |]; try reflexivity.
  rewrite hardened_Tag. unfold needs_target. simpl.
  destruct (String.eqb nm "a"); [|reflexivity].
  rewrite has_target_hardened. reflexivity.
Qed.

Lemma harden_attrs_idempotent (a : attrs) :
  harden_attrs (harden_attrs a) = harden_attrs a.
Proof.
  unfold harden_attrs at 1. rewrite has_target_hardened. reflexivity.
Qed.

Lemma hardened_idempotent (n : node) : hardened (hardened n) = hardened n.
Proof.
  induction n as [nm a cs IH|t|t|t] using node_nested_ind; try reflexivity.
  rewrite !hardened_Tag. f_equal.
  - destruct (String.eqb nm "a"); [apply harden_attrs_idempotent|reflexivity].
  - rewrite map_map. apply map_ext_Forall. exact IH.
Qed.

(** A second run of [add_target_blank] finds a target on every anchor and
    changes nothing. *)
Lemma add_target_blank_idempotent (s : soup) :
  add_target_blank (fst (add_target_blank s))
  = (fst (add_target_blank s), false).
Proof.
  apply injective_projections.
  - unfold add_target_blank. rewrite !harden_list_map. cbn [fst].
    rewrite map_map. apply map_ext. exact hardened_idempotent.
  - destruct (add_target_blank_descendants (fst (add_target_blank s)))
      as [_ ->].
    destruct (add_target_blank_descendants s) as [-> _]. cbn [snd].
    induction (descendants s) as [|n l IH]; [reflexivity|].
    simpl. rewrite needs_target_hardened. exact IH.
Qed.

Lemma find_map_commute {A : Type} (p : A -> bool) (g : A -> A) (l : list A) :
  (forall x, p (g x) = p x) ->
  List.find p (map g l) = option_map g (List.find p l).
Proof.
  intros H. induction l as [|x l IH]; [reflexivity|]. simpl.
  rewrite H. destruct (p x); [reflexivity|exact IH].
Qed.

Lemma is_preview_script_hardened (n : node) :
  is_preview_script (hardened n) = is_preview_script n.
Proof.
  destruct n as [nm a cs| | |]; try reflexivity.
  rewrite hardened_Tag. unfold is_preview_script. simpl.
  destruct (String.eqb nm "a") eqn:E; [|reflexivity].
  apply String.eqb_eq in E. subst nm. reflexivity.
Qed.

(** With the script in place [adjust_body] is [add_target_blank]. *)
Lemma adjust_body_with_script (t : soup) (x : node) :
  find is_preview_script t = Some x -> adjust_body t = add_target_blank t.
Proof.
  intros H. unfold adjust_body, ensure_script. rewrite H. reflexivity.
Qed.

Lemma adjust_body_at_rest (t : soup) (x : node) :
  find is_preview_script t = Some x ->
  adjust_body (fst (adjust_body t)) = (fst (adjust_body t), false).
Proof.
  intros H. rewrite (adjust_body_with_script t x H).
  rewrite (adjust_body_with_script (fst (add_target_blank t)) (hardened x)).
  - apply add_target_blank_idempotent.
  - unfold find in *. destruct (add_target_blank_descendants t) as [-> _].
    rewrite find_map_commute by exact is_preview_script_hardened.
    rewrite H. reflexivity.
Qed.

(** X8.  A third run of [adjust_body] changes nothing: the first may inject,
    the second may harden, and then both sub-operations are at rest. *)
Lemma adjust_body_settles (s : soup) :
  let s2 := fst (adjust_body (fst (adjust_body s))) in
  adjust_body s2 = (s2, false).
Proof.
  cbn zeta. destruct (find is_preview_script s) as [x|] eqn:Hfind.
  - rewrite (adjust_body_at_rest s x Hfind). cbn [fst].
    apply (adjust_body_at_rest s x Hfind).
  - assert (H1 : adjust_body s = (fst (ensure_script s), true)).
    { unfold adjust_body, ensure_script. rewrite Hfind.
      destruct (find (tag_named "body") s); reflexivity. }
    rewrite H1. cbn [fst].
    pose proof (ensure_script_cases s) as H. rewrite Hfind in H.
    destruct H as (_ & Hall & _). unfold find_all in Hall.
    apply find_some_filter in Hall.
    apply (adjust_body_at_rest _ _ Hall).
Qed.

End SubOperationIdempotence.

(** * The CSP rewrite applied twice *)

Section CspTwice.

Lemma lacks_cons c x s : lacks c (String x s) <-> Ascii.eqb c x = false /\ lacks c s.
Proof.
  unfold lacks. rewrite contains_char_cons. split.
  - intros H. apply orb_false_elim in H. exact H.
  - intros [-> ->]. reflexivity.
Qed.

Lemma lacks_app c a b : lacks c (a ++ b) <-> lacks c a /\ lacks c b.
Proof.
  unfold lacks. rewrite contains_char_app. split.
  - intros H. apply orb_false_elim in H. exact H.
  - intros [-> ->]. reflexivity.
Qed.

Lemma lacks_lstrip c p s : lacks c s -> lacks c (lstrip_by p s).
Proof.
  induction s as [|x r IH]; [trivial|]. intros H. simpl.
  destruct (p x); [|exact H]. apply IH. apply lacks_cons in H. apply H.
Qed.

Lemma lacks_rstrip c p s : lacks c s -> lacks c (rstrip_by p s).
Proof.
  induction s as [|x r IH]; [trivial|]. intros H.
  apply lacks_cons in H as [Hx Hr]. specialize (IH Hr). simpl.
  destruct (rstrip_by p r) as [|y t].
  - destruct (p x); [reflexivity|]. apply lacks_cons. split; [exact Hx|reflexivity].
  - apply lacks_cons. split; assumption.
Qed.

Lemma lacks_strip c s : lacks c s -> lacks c (strip s).
Proof. intros H. apply lacks_rstrip, lacks_lstrip, H. Qed.

Lemma lacks_split_ws c s : lacks c s -> Forall (lacks c) (split_ws s).
Proof.
  induction s as [|x r IH]; [constructor|]. intros H.
  apply lacks_cons in H as [Hx Hr]. specialize (IH Hr). simpl.
  assert (H1 : lacks c (String x "")) by (apply lacks_cons; split; [exact Hx|reflexivity]).
  destruct (isspace x); [exact IH|].
  destruct (split_ws r) as [|h t]; [repeat constructor; exact H1|].
  inversion IH as [|? ? Hh Ht]; subst.
  destruct (head_isspace r).
  - repeat constructor; assumption.
  - constructor; [|assumption]. apply lacks_cons. split; assumption.
Qed.

Lemma lacks_split_on_other c sep s :
  lacks c s -> Forall (lacks c) (split_on sep s).
Proof.
  induction s as [|x r IH]; [repeat constructor|]. intros H.
  apply lacks_cons in H as [Hx Hr]. specialize (IH Hr). simpl.
  destruct (Ascii.eqb x sep); [constructor; [reflexivity|exact IH]|].
  destruct (split_on sep r) as [|h t].
  - repeat constructor. apply lacks_cons. split; [exact Hx|reflexivity].
  - inversion IH; subst. constructor; [|assumption].
    apply lacks_cons. split; assumption.
Qed.

(** No piece of a split holds the separator. *)
Lemma lacks_split_on sep s : Forall (lacks sep) (split_on sep s).
Proof.
  induction s as [|x r IH]; [repeat constructor|]. simpl.
  destruct (Ascii.eqb x sep) eqn:E; [constructor; [reflexivity|exact IH]|].
  rewrite Ascii.eqb_sym in E.
  destruct (split_on sep r) as [|h t].
  - repeat constructor. apply lacks_cons. split; [exact E|reflexivity].
  - inversion IH; subst. constructor; [|assumption].
    apply lacks_cons. split; assumption.
Qed.

Lemma lacks_join c sep (l : list string) :
  lacks c sep -> Forall (lacks c) l -> lacks c (join sep l).
Proof.
  intros Hsep H. unfold join. induction H as [|x l Hx Hl IH]; [reflexivity|].
  destruct l as [|y l']; [exact Hx|]. simpl.
  apply lacks_app. split; [exact Hx|]. apply lacks_app. split; [exact Hsep|].
  exact IH.
Qed.

Lemma split_on_absent sep s : lacks sep s -> split_on sep s = [s].
Proof.
  induction s as [|x r IH]; [reflexivity|]. intros H.
  apply lacks_cons in H as [Hx Hr]. simpl.
  rewrite Ascii.eqb_sym, Hx, (IH Hr). reflexivity.
Qed.

Lemma split_on_app sep a b :
  lacks sep a -> split_on sep (a ++ String sep b) = a :: split_on sep b.
Proof.
  induction a as [|x a IH]; intros H.
  - simpl. rewrite Ascii.eqb_refl. reflexivity.
  - apply lacks_cons in H as [Hx Ha]. simpl.
    rewrite Ascii.eqb_sym, Hx, (IH Ha). reflexivity.
Qed.

(** The pieces of a list joined by a semicolon and a space. *)
Lemma split_on_join (ds : list string) :
  Forall (lacks ";") ds ->
  split_on ";" (join "; " ds)
  = match ds with
    | [] => [""]
    | d :: r => d :: map (String " ") r
    end.
Proof.
  intros H. unfold join. induction H as [|d r Hd Hr IH]; [reflexivity|].
  destruct r as [|d2 r'].
  - simpl. apply split_on_absent, Hd.
  - change (String.concat "; " (d :: d2 :: r'))
      with (d ++ String ";" (String " " (String.concat "; " (d2 :: r'))))%string.
    rewrite (split_on_app _ _ _ Hd). f_equal.
    cbn [split_on]. change (Ascii.eqb " " ";") with false. cbn iota.
    rewrite IH. reflexivity.
Qed.

Lemma strip_space_prefix (d : string) : strip (String " " d) = strip d.
Proof. reflexivity. Qed.

(** Serializing well-formed directives and parsing again is the identity. *)
Lemma parse_directives_join (ds : list string) :
  Forall well_formed ds -> parse_directives (join "; " ds) = ds.
Proof.
  intros H. unfold parse_directives.
  rewrite split_on_join by (eapply Forall_impl; [|exact H]; intros d Hd; apply Hd).
  destruct H as [|d r (_ & Hne & Hst) Hr]; [reflexivity|].
  cbn [filter map]. rewrite Hst, Hne. cbn [map]. rewrite Hst. f_equal.
  induction Hr as [|x l (_ & Hx1 & Hx2) _ IH]; [reflexivity|].
  cbn [filter map]. rewrite strip_space_prefix, Hx2, Hx1. cbn [map].
  rewrite strip_space_prefix, Hx2, IH. reflexivity.
Qed.

Lemma parse_directives_well_formed (decoded : string) :
  Forall well_formed (parse_directives decoded).
Proof.
  apply Forall_forall. intros d Hin.
  pose proof (parse_directives_stripped decoded) as Hs.
  rewrite Forall_forall in Hs. destruct (Hs d Hin) as [Hne Hst].
  split; [|split; assumption].
  unfold parse_directives in Hin. apply in_map_iff in Hin as (x & <- & Hx).
  apply filter_In in Hx as [Hx _]. apply lacks_strip.
  pose proof (lacks_split_on ";" decoded) as Hl.
  rewrite Forall_forall in Hl. apply Hl, Hx.
Qed.

End CspTwice.

Section CspTwiceMore.

Lemma rstrip_token (t : string) :
  is_token t = true -> rstrip_by isspace t = t.
Proof.
  induction t as [|c t IH]; [discriminate|].
  unfold is_token. simpl. intros H. apply andb_prop in H as [Hc Ht].
  apply negb_true_iff in Hc.
  destruct t as [|c' t']; [simpl; rewrite Hc; reflexivity|].
  rewrite IH by exact Ht. reflexivity.
Qed.

Lemma rstrip_app_fixed p (a b : string) :
  nonempty b = true -> rstrip_by p b = b -> rstrip_by p (a ++ b) = (a ++ b)%string.
Proof.
  intros Hne Hb. induction a as [|x a IH]; [exact Hb|].
  simpl. rewrite IH. destruct (a ++ b)%string eqn:E; [|reflexivity].
  destruct a; simpl in E; [subst b|]; discriminate.
Qed.

Lemma join_tokens_fixed (toks : list string) :
  Forall (fun t => is_token t = true) toks -> toks <> [] ->
  nonempty (join " " toks) = true
  /\ head_isspace (join " " toks) = false
  /\ rstrip_by isspace (join " " toks) = join " " toks.
Proof.
  intros H. unfold join. induction H as [|t r Ht Hr IH]; [congruence|]. intros _.
  assert (Hhead : forall tail, nonempty (t ++ tail) = true
                               /\ head_isspace (t ++ tail) = false).
  { intros tail. destruct t as [|c t']; [discriminate|].
    unfold is_token in Ht. simpl in *. apply andb_prop in Ht as [Hc _].
    apply negb_true_iff in Hc. auto. }
  destruct r as [|t2 r'].
  - simpl. destruct (Hhead "") as [H1 H2]. rewrite append_empty_r in H1, H2.
    auto using rstrip_token.
  - remember (t2 :: r') as l eqn:El.
    assert (Hcat : String.concat " " (t :: l)
                   = (t ++ " " ++ String.concat " " l)%string)
      by (subst l; reflexivity).
    rewrite Hcat.
    destruct (Hhead (" " ++ String.concat " " l)%string) as [H1 H2].
    split; [exact H1|]. split; [exact H2|].
    destruct IH as (Hne & _ & Hfix); [subst l; discriminate|].
    apply rstrip_app_fixed; [reflexivity|].
    apply (rstrip_app_fixed isspace " " (String.concat " " l)); assumption.
Qed.

Lemma strip_join_tokens (toks : list string) :
  Forall (fun t => is_token t = true) toks -> toks <> [] ->
  strip (join " " toks) = join " " toks.
Proof.
  intros H Hne. destruct (join_tokens_fixed toks H Hne) as (_ & Hhead & Hfix).
  unfold strip, strip_by. rewrite lstrip_fixed by exact Hhead. exact Hfix.
Qed.

Lemma sources_with_self_nonempty (d : string) : sources_with_self d <> [].
Proof.
  unfold sources_with_self. destruct (has_self (tl (split_ws d))) eqn:H.
  - destruct (tl (split_ws d)); [discriminate|congruence].
  - destruct (tl (split_ws d)); discriminate.
Qed.

Lemma lacks_sources_with_self c (d : string) :
  lacks c d -> lacks c "'self'" -> Forall (lacks c) (sources_with_self d).
Proof.
  intros Hd Hself. unfold sources_with_self.
  assert (H : Forall (lacks c) (tl (split_ws d))).
  { pose proof (lacks_split_ws c d Hd) as H.
    destruct (split_ws d); [constructor|]. inversion H; assumption. }
  destruct (has_self _); [exact H|].
  apply Forall_app. split; [exact H|repeat constructor; exact Hself].
Qed.

(** The emitted script-src directive is the join of its tokens. *)
Lemma rewritten_as_join (d : string) :
  is_script_src d = true ->
  rewritten_directive d = join " " ("script-src" :: sources_with_self d).
Proof.
  intros H. unfold rewritten_directive. rewrite H. unfold join.
  pose proof (sources_with_self_nonempty d) as Hne.
  destruct (sources_with_self d); [congruence|reflexivity].
Qed.

Lemma lacks_rewritten c (d : string) :
  lacks c d -> lacks c "script-src 'self'" -> lacks c (rewritten_directive d).
Proof.
  intros Hd Hc.
  assert (H3 : lacks c "script-src" /\ lacks c " " /\ lacks c "'self'").
  { apply (lacks_app c "script-src" " 'self'") in Hc as [H1 H2].
    apply (lacks_app c " " "'self'") in H2 as [H2 H3]. auto. }
  destruct H3 as (Hname & Hsp & Hself).
  destruct (is_script_src d) eqn:H.
  - rewrite (rewritten_as_join d H).
    apply lacks_join; [exact Hsp|].
    constructor; [exact Hname|].
    apply lacks_sources_with_self; assumption.
  - unfold rewritten_directive. rewrite H. exact Hd.
Qed.

Lemma well_formed_rewritten (d : string) :
  well_formed d -> well_formed (rewritten_directive d).
Proof.
  intros (Hsemi & Hne & Hst). destruct (is_script_src d) eqn:H.
  - split; [apply lacks_rewritten; [exact Hsemi|reflexivity]|].
    rewrite (rewritten_as_join d H).
    assert (Htoks : Forall (fun t => is_token t = true)
                      ("script-src" :: sources_with_self d))
      by (constructor; [reflexivity|apply sources_with_self_tokens]).
    split; [|apply strip_join_tokens; [exact Htoks|discriminate]].
    apply (join_tokens_fixed _ Htoks). discriminate.
  - unfold rewritten_directive. rewrite H. repeat split; assumption.
Qed.

(** What the loop emits it emits again unchanged. *)
Lemma rewritten_idempotent (d : string) :
  rewritten_directive (rewritten_directive d) = rewritten_directive d.
Proof.
  destruct (is_script_src d) eqn:H.
  - assert (H' : is_script_src (rewritten_directive d) = true)
      by (unfold rewritten_directive; rewrite H; reflexivity).
    unfold rewritten_directive at 1. rewrite H'.
    unfold sources_with_self at 1.
    rewrite (split_ws_rewritten d H). cbn [tl].
    rewrite has_self_sources_with_self.
    unfold rewritten_directive. rewrite H. reflexivity.
  - unfold rewritten_directive. rewrite !H. reflexivity.
Qed.

Lemma new_directives_well_formed (decoded : string) :
  Forall well_formed (new_directives_of decoded).
Proof.
  rewrite new_directives_closed_form. cbn zeta.
  assert (H : Forall well_formed (map rewritten_directive (parse_directives decoded))).
  { apply Forall_map. eapply Forall_impl; [|apply parse_directives_well_formed].
    exact well_formed_rewritten. }
  destruct (existsb _ _); [exact H|].
  apply Forall_app. split; [exact H|].
  repeat constructor; reflexivity.
Qed.

(** The new directive list is a fixed point of the rewrite. *)
Lemma new_directives_fixed (decoded : string) :
  new_directives_of (join "; " (new_directives_of decoded))
  = new_directives_of decoded.
Proof.
  rewrite (new_directives_closed_form (join "; " _)). cbn zeta.
  rewrite parse_directives_join by apply new_directives_well_formed.
  rewrite new_directives_closed_form. cbn zeta.
  destruct (existsb is_script_src (parse_directives decoded)) eqn:E.
  - assert (E' : existsb is_script_src
                   (map rewritten_directive (parse_directives decoded)) = true).
    { apply existsb_exists in E as (d & Hin & Hd).
      apply existsb_exists. exists (rewritten_directive d).
      split; [apply in_map, Hin|].
      unfold rewritten_directive. rewrite Hd. reflexivity. }
    rewrite E', map_map. apply map_ext. exact rewritten_idempotent.
  - rewrite existsb_app. cbn [existsb]. 
    replace (is_script_src "script-src 'self'") with true by reflexivity.
    rewrite orb_true_r, map_app, map_map. f_equal.
    apply map_ext. exact rewritten_idempotent.
Qed.

End CspTwiceMore.

(** C4.  For a policy element whose content holds a directive that the
    loop takes for script-src and whose source tokens include self once
    quotes are stripped: the directive is emitted as the name script-src
    and its own source tokens joined by single spaces, so its token
    sequence after the name is unchanged; the new string is the rewritten
    list joined by semicolon and space, in the entity style of the raw
    value, and that joined string parses back to the rewritten list, which
    holds the emitted directive; the flag is true exactly when the new
    string differs from the raw attribute value; the document is left as
    it is when they are equal, the attribute is set to the new string when
    they differ, and in both cases the attribute holds the new string
    afterwards. *)
Theorem csp_self_present (unescape : string -> string)
    (s : soup) (meta : node) (raw d : string) :
  find is_csp_meta s = Some meta -> node_attr "content" meta = Some raw ->
  In d (parse_directives (unescape raw)) ->
  name_starts_script_src d = true -> has_self (tl (split_ws d)) = true ->
  let rewritten := map rewritten_directive (parse_directives (unescape raw)) in
  let serialized := join "; " rewritten in
  let new := rewrite_content unescape raw in
  new_directives_of (unescape raw) = rewritten
  /\ rewritten_directive d = ("script-src " ++ join " " (tl (split_ws d)))%string
  /\ tl (split_ws (rewritten_directive d)) = tl (split_ws d)
  /\ new = (if contains "&#39;" raw
            then replace_char "'" "&#39;" serialized else serialized)
  /\ parse_directives serialized = rewritten
  /\ In (rewritten_directive d) (parse_directives serialized)
  /\ (snd (adjust_csp_meta unescape s) = true <-> new <> raw)
  /\ (new = raw -> fst (adjust_csp_meta unescape s) = s)
  /\ (new <> raw ->
      find is_csp_meta (fst (adjust_csp_meta unescape s))
      = Some (set_attribute "content" new meta))
  /\ exists meta',
       find is_csp_meta (fst (adjust_csp_meta unescape s)) = Some meta'
       /\ node_attr "content" meta' = Some new.
Proof.
  intros Hfind Hraw Hin Hname Hself rewritten serialized new.
  assert (Hd : is_script_src d = true).
  { rewrite is_script_src_name; [exact Hname|].
    apply (parse_directives_In _ _ Hin). }
  assert (Hsrc : sources_with_self d = tl (split_ws d))
    by (unfold sources_with_self; rewrite Hself; reflexivity).
  assert (Hlist : new_directives_of (unescape raw) = rewritten).
  { rewrite new_directives_closed_form. cbn zeta.
    rewrite (existsb_script_src_In _ d Hin Hd). reflexivity. }
  assert (Hparse : parse_directives serialized = rewritten).
  { unfold serialized. rewrite <- Hlist.
    apply parse_directives_join, new_directives_well_formed. }
  destruct (adjust_csp_meta_found unescape s meta raw Hfind Hraw)
    as (Hflag & Hsame & Hdiff & Hafter).
  fold new in Hflag, Hsame, Hdiff, Hafter.
  split; [exact Hlist|].
  split; [unfold rewritten_directive; rewrite Hd, Hsrc; reflexivity|].
  split; [rewrite (split_ws_rewritten d Hd), Hsrc; reflexivity|].
  split.
  { unfold new, rewrite_content, serialized. rewrite Hlist. reflexivity. }
  split; [exact Hparse|].
  split; [rewrite Hparse; apply in_map, Hin|].
  split.
  { rewrite Hflag. destruct (String.eqb new raw) eqn:E.
    - apply String.eqb_eq in E. split; [discriminate|congruence].
    - apply String.eqb_neq in E. split; [intros _; exact E|reflexivity]. }
  split; [exact Hsame|]. split; [exact Hdiff|exact Hafter].
Qed.

(** A witness for C4: a policy that has 'self' already, written with
    irregular spacing; the tokens are kept, the spacing is normalized, the
    flag is true because the string changed, and the attribute holds the
    normalized string. *)
Lemma csp_self_present_witness :
  let raw := "script-src 'self'   https://x.com" in
  let s := [Tag "meta" [("http-equiv", "content-security-policy");
                        ("content", raw)] []] in
  rewritten_directive raw = "script-src 'self' https://x.com"
  /\ rewrite_content unescape_apos raw = "script-src 'self' https://x.com"
  /\ adjust_csp_meta unescape_apos s
     = ([Tag "meta" [("http-equiv", "content-security-policy");
                     ("content", "script-src 'self' https://x.com")] []],
        true).
Proof.
  pose proof (csp_self_present unescape_apos
           [Tag "meta" [("http-equiv", "content-security-policy");
                        ("content", "script-src 'self'   https://x.com")] []]
           (Tag "meta" [("http-equiv", "content-security-policy");
                        ("content", "script-src 'self'   https://x.com")] [])
           "script-src 'self'   https://x.com"
           "script-src 'self'   https://x.com"
           eq_refl eq_refl (or_introl eq_refl) eq_refl eq_refl) as H.
  cbn zeta in H. destruct H as (_ & H2 & _ & H4 & _).
  split; [exact H2|]. split; [exact H4|]. reflexivity.
Defined.

Section CspIdempotence.

Variable unescape : string -> string.

(** [html.unescape] returns its argument when it holds no ampersand. *)
Hypothesis unescape_plain : forall s, lacks "&" s -> unescape s = s.

Lemma lacks_contains c (rest s : string) :
  lacks c s -> contains (String c rest) s = false.
Proof.
  induction s as [|x r IH]; [reflexivity|]. intros H.
  apply lacks_cons in H as [Hx Hr]. simpl.
  destruct (ascii_dec c x) as [->|_].
  - rewrite Ascii.eqb_refl in Hx. discriminate.
  - apply IH, Hr.
Qed.

Lemma lacks_new_directives c (decoded : string) :
  lacks c decoded -> lacks c "script-src 'self'" ->
  Forall (lacks c) (new_directives_of decoded).
Proof.
  intros Hd Hc. rewrite new_directives_closed_form. cbn zeta.
  assert (H : Forall (lacks c)
                (map rewritten_directive (parse_directives decoded))).
  { apply Forall_map. unfold parse_directives. apply Forall_map.
    apply Forall_forall. intros x Hx. apply filter_In in Hx as [Hx _].
    apply lacks_rewritten; [|exact Hc]. apply lacks_strip.
    pose proof (lacks_split_on_other c ";" decoded Hd) as Hl.
    rewrite Forall_forall in Hl. apply Hl, Hx. }
  destruct (existsb _ _); [exact H|].
  apply Forall_app. split; [exact H|repeat constructor; exact Hc].
Qed.

(** On a value without ampersand the rewrite is the joined new list, and
    it holds no ampersand either. *)
Lemma rewrite_content_plain (raw : string) :
  lacks "&" raw ->
  rewrite_content unescape raw = join "; " (new_directives_of raw)
  /\ lacks "&" (rewrite_content unescape raw).
Proof.
  intros H. unfold rewrite_content.
  rewrite (unescape_plain raw H), (lacks_contains "&" "#39;" raw H).
  split; [reflexivity|].
  apply lacks_join; [reflexivity|].
  apply lacks_new_directives; [exact H|reflexivity].
Qed.

(** The rewrite of a value without ampersand is a fixed point of the
    rewrite. *)
Lemma rewrite_content_idempotent (raw : string) :
  lacks "&" raw ->
  rewrite_content unescape (rewrite_content unescape raw)
  = rewrite_content unescape raw.
Proof.
  intros H. destruct (rewrite_content_plain raw H) as [Hout Hlacks].
  destruct (rewrite_content_plain _ Hlacks) as [-> _].
  rewrite Hout. rewrite new_directives_fixed. reflexivity.
Qed.

(** X13.  A second run of [adjust_csp_meta] changes nothing when the policy
    holds no ampersand (on such a value [html.unescape] is the identity):
    it returns the same document with the flag false. *)
Lemma adjust_csp_meta_idempotent (s : soup) :
  (forall meta raw, find is_csp_meta s = Some meta ->
     node_attr "content" meta = Some raw -> lacks "&" raw) ->
  adjust_csp_meta unescape (fst (adjust_csp_meta unescape s))
  = (fst (adjust_csp_meta unescape s), false).
Proof.
  intros Hplain.
  destruct (find is_csp_meta s) as [meta|] eqn:Hfind.
  - destruct (node_attr "content" meta) as [raw|] eqn:Hraw.
    + destruct (adjust_csp_meta_found unescape s meta raw Hfind Hraw)
        as (_ & _ & _ & meta' & Hfind' & Hraw').
      unfold adjust_csp_meta at 1. rewrite Hfind', Hraw'.
      rewrite rewrite_content_idempotent by (apply (Hplain meta raw); auto).
      rewrite String.eqb_refl. reflexivity.
    + unfold adjust_csp_meta at 2 3. rewrite Hfind, Hraw. cbn [fst].
      unfold adjust_csp_meta. rewrite Hfind, Hraw. reflexivity.
  - unfold adjust_csp_meta at 2 3. rewrite Hfind. cbn [fst].
    unfold adjust_csp_meta. rewrite Hfind. reflexivity.
Qed.

End CspIdempotence.

(** * Why one pass is not enough *)

Section SecondPass.

Lemma shallow_needs_target : shallow_pred needs_target.
Proof. intros [| | |]; reflexivity. Qed.

Lemma existsb_filter {A : Type} (q : A -> bool) (l : list A) :
  existsb q l = negb (match filter q l with [] => true | _ => false end).
Proof.
  induction l as [|x l IH]; [reflexivity|]. simpl.
  destruct (q x); [reflexivity|exact IH].
Qed.

Lemma existsb_shallow (q : node -> bool) (a b : list node) :
  shallow_pred q -> map shallow a = map shallow b ->
  existsb q a = existsb q b.
Proof.
  intros Hq Hab. rewrite !existsb_filter. f_equal.
  pose proof (filter_shallow q a Hq) as Ha.
  pose proof (filter_shallow q b Hq) as Hb.
  rewrite Hab, <- Hb in Ha.
  destruct (filter q a), (filter q b); try reflexivity; discriminate.
Qed.

(** The injection of the script keeps every anchor as it was. *)
Lemma ensure_script_keeps_anchors (s : soup) :
  existsb needs_target (descendants (fst (ensure_script s)))
  = existsb needs_target (descendants s).
Proof.
  unfold ensure_script.
  destruct (find is_preview_script s); [reflexivity|].
  destruct (find (tag_named "body") s) as [b|] eqn:Hbody; cbn [fst].
  - destruct (find_tag_named _ _ _ Hbody) as (a & cs & ->).
    destruct (update_first_spec _ (append_child preview_tag) _ _ Hbody)
      as (pre & pre' & post & -> & -> & Hsh & _).
    rewrite !existsb_app.
    rewrite (existsb_shallow needs_target pre' pre shallow_needs_target Hsh).
    f_equal. f_equal. cbn [append_child].
    rewrite !self_and_descendants_Tag, descendants_app. cbn [existsb].
    rewrite existsb_app. simpl. rewrite orb_false_r. reflexivity.
  - rewrite descendants_app, existsb_app. simpl. rewrite orb_false_r.
    reflexivity.
Qed.

(** X9.  A document without the preview script and with an anchor that
    lacks a target is changed by the first pass of [adjust_body] and again
    by the second. *)
Lemma adjust_body_needs_two_passes (s : soup) :
  find is_preview_script s = None ->
  existsb lacks_target (anchors s) = true ->
  snd (adjust_body s) = true
  /\ snd (adjust_body (fst (adjust_body s))) = true.
Proof.
  intros Hnone Hanchor.
  assert (Hneeds : existsb needs_target (descendants s) = true).
  { rewrite <- Hanchor. unfold anchors, find_all.
    induction (descendants s) as [|n l IH]; [reflexivity|].
    simpl. unfold needs_target at 1.
    destruct (tag_named "a" n); simpl; rewrite IH; reflexivity. }
  assert (H1 : adjust_body s = (fst (ensure_script s), true)).
  { unfold adjust_body, ensure_script. rewrite Hnone.
    destruct (find (tag_named "body") s); reflexivity. }
  rewrite H1. cbn [fst snd]. split; [reflexivity|].
  pose proof (ensure_script_cases s) as H. rewrite Hnone in H.
  destruct H as (_ & Hall & _). unfold find_all in Hall.
  apply find_some_filter in Hall.
  rewrite (adjust_body_with_script _ _ Hall).
  destruct (add_target_blank_descendants (fst (ensure_script s))) as [_ ->].
  rewrite ensure_script_keeps_anchors. exact Hneeds.
Qed.

End SecondPass.

(** * The batch *)

Section BatchFacts.

Variable P : platform.

Lemma walk_app (a b : list string) (m : machine P) :
  walk P (a ++ b) m
  = match walk P a m with
    | (m', None) => walk P b m'
    | (m', Some e) => (m', Some e)
    end.
Proof.
  revert m. induction a as [|p a IH]; intros m; [reflexivity|].
  simpl. destruct (run_process_file P p m) as [m1 [e|]]; [reflexivity|].
  apply IH.
Qed.

(** The file system after [run_process_file]: as it was, or as the one
    call of [write_text] on that path left it. *)
Lemma run_process_file_disk (p : string) (m : machine P) :
  fst (fst (run_process_file P p m)) = fst m
  \/ exists t, fst (fst (run_process_file P p m))
               = fst (os_write_text P p t (fst m)).
Proof.
  unfold run_process_file.
  destruct (os_read_bytes P (fst m) p) as [raw|e]; [|left; reflexivity].
  destruct (file_outcome P raw) as [[t|]|e]; try (left; reflexivity).
  right. exists t. unfold write_file_utf8.
  destruct (os_write_text P p t (fst m)) as [w [[| | |]|]]; reflexivity.
Qed.

End BatchFacts.

(** X1.  A file that cannot be written does not stop the run, and it is
    still reported as updated: when the file is read, the mutators ask for
    a write and the write raises [PermissionError] or another [OSError],
    [process_file] returns normally after printing the warning followed by
    the line that says the file was updated. *)
Theorem failed_write_reported_as_updated (P : platform) (path : string)
    (m : machine P) (raw : list byte) (t : lib_text P) (e : exception) :
  os_read_bytes P (fst m) path = inl raw ->
  file_outcome P raw = Ok (Updated t) ->
  snd (os_write_text P path t (fst m)) = Some e ->
  e = PermissionError \/ e = OSError ->
  run_process_file P path m
  = ((fst (os_write_text P path t (fst m)),
      snd m ++ [if match e with PermissionError => true | _ => false end
                then WarnNotWritten path else WarnWriteError path;
                LineUpdated path]),
     None).
Proof.
  intros Hread Hout Hraise He. unfold run_process_file, write_file_utf8.
  rewrite Hread, Hout.
  destruct (os_write_text P path t (fst m)) as [w r]. simpl in Hraise. subst r.
  destruct He as [-> | ->]; unfold print; simpl; rewrite <- app_assoc;
    reflexivity.
Qed.

(** A witness for X1: the scenario file on a shelf that locks it. *)
Lemma failed_write_reported_as_updated_witness :
  let P := shelf_platform NoDetector (fun _ => scenario_doc) (fun _ => []) in
  let w := {| shelf_files := [("a.html", scenario_file)];
              shelf_locked := ["a.html"] |} in
  run_process_file P "a.html" (w, [])
  = ((w, [WarnNotWritten "a.html"; LineUpdated "a.html"]), None).
Proof.
  exact (failed_write_reported_as_updated
           (shelf_platform NoDetector (fun _ => scenario_doc) (fun _ => []))
           "a.html"
           ({| shelf_files := [("a.html", scenario_file)];
               shelf_locked := ["a.html"] |}, [])
           scenario_file [] PermissionError
           eq_refl eq_refl eq_refl (or_introl eq_refl)).
Defined.

(** X2.  With charset_normalizer importable (chardet installed or not), a
    readable file that is not UTF-8 ends the whole run: [main] stops with
    the uncaught [AttributeError] in the state the files before it left, so
    nothing is printed for that file, no file after it is read or written,
    and the closing summary is not printed. *)
Theorem non_utf8_file_ends_the_run (P : platform) (m m1 : machine P)
    (before after : list string) (path : string) (raw : list byte)
    (from_bytes : list byte -> CharsetMatches)
    (chardet : option (list byte -> detection)) :
  lib_detector P = import_detect_encoding (Some from_bytes) chardet ->
  os_is_dir P (fst m) = true ->
  os_rglob P (fst m) = before ++ path :: after ->
  walk P before m = (m1, None) ->
  os_read_bytes P (fst m1) path = inl raw ->
  lib_decode_utf8 P raw = None ->
  main P m = (m1, Uncaught (Resolver AttributeError)).
Proof.
  intros Hdet Hdir Hglob Hbefore Hread Hutf8.
  unfold main, walk_and_update. rewrite Hdir, Hglob, walk_app, Hbefore.
  cbn [negb walk]. unfold run_process_file. rewrite Hread.
  unfold file_outcome, process_file.
  rewrite Hdet. cbn [import_detect_encoding].
  rewrite (read_file_smart_raises _ _ _ _ from_bytes raw Hutf8).
  reflexivity.
Qed.

(** A witness for X2: three files, the second one the single byte 0xFF. *)
Lemma non_utf8_file_ends_the_run_witness :
  let P := shelf_platform (CharsetNormalizer (fun _ => []))
             (fun _ => commented_doc) (fun _ => []) in
  let w := {| shelf_files := [("a.html", commented_file); ("b.html", [xff]);
                              ("c.html", scenario_file)];
              shelf_locked := [] |} in
  main P (w, []) = ((w, [LineUnchanged "a.html"]),
                    Uncaught (Resolver AttributeError)).
Proof.
  exact (non_utf8_file_ends_the_run
           (shelf_platform (CharsetNormalizer (fun _ => []))
              (fun _ => commented_doc) (fun _ => []))
           ({| shelf_files := [("a.html", commented_file); ("b.html", [xff]);
                               ("c.html", scenario_file)];
               shelf_locked := [] |}, [])
           ({| shelf_files := [("a.html", commented_file); ("b.html", [xff]);
                               ("c.html", scenario_file)];
               shelf_locked := [] |}, [LineUnchanged "a.html"])
           ["a.html"] ["c.html"] "b.html" [xff] (fun _ => []) None
           eq_refl eq_refl eq_refl eq_refl eq_refl eq_refl).
Defined.

Section BatchFrame.

Variable P : platform.

(** Writing one file leaves the content of every other file as it was. *)
Hypothesis write_text_local : forall p t w q,
  q <> p ->
  os_read_bytes P (fst (os_write_text P p t w)) q = os_read_bytes P w q.

(** X3.  On a file system where a write touches only the file written,
    the loop leaves every file that is not on its list as it was, however
    the run ends. *)
Theorem walk_leaves_other_files (paths : list string) (m : machine P)
    (q : string) :
  ~ In q paths ->
  os_read_bytes P (fst (fst (walk P paths m))) q = os_read_bytes P (fst m) q.
Proof.
  revert m. induction paths as [|p rest IH]; intros m Hq; [reflexivity|].
  assert (Hp : os_read_bytes P (fst (fst (run_process_file P p m))) q
               = os_read_bytes P (fst m) q).
  { destruct (run_process_file_disk P p m) as [-> | [t ->]]; [reflexivity|].
    apply write_text_local. intros ->. apply Hq. left. reflexivity. }
  cbn [walk]. destruct (run_process_file P p m) as [m' [e|]]; [exact Hp|].
  rewrite IH by (intros H; apply Hq; right; exact H). exact Hp.
Qed.

End BatchFrame.

Lemma shelf_lookup_store_other (p q : string) (b : list byte)
    (l : list (string * list byte)) :
  q <> p -> shelf_lookup q (shelf_store p b l) = shelf_lookup q l.
Proof.
  intros Hne. induction l as [|[k c] l IH]; simpl.
  - destruct (String.eqb p q) eqn:E; [|reflexivity].
    apply String.eqb_eq in E. congruence.
  - destruct (String.eqb k p) eqn:E; simpl.
    + apply String.eqb_eq in E. subst k.
      destruct (String.eqb p q) eqn:E'; [|reflexivity].
      apply String.eqb_eq in E'. congruence.
    + destruct (String.eqb k q); [reflexivity|exact IH].
Qed.

Lemma shelf_write_local (p : string) (t : list N) (w : shelf) (q : string) :
  q <> p -> shelf_read (fst (shelf_write p t w)) q = shelf_read w q.
Proof.
  intros Hne. unfold shelf_write, shelf_read.
  destruct (existsb (String.eqb p) (shelf_locked w)); [reflexivity|].
  simpl. rewrite shelf_lookup_store_other by exact Hne. reflexivity.
Qed.

(** A witness for X3: the scenario file is rewritten, its neighbour is
    not on the list and keeps its bytes. *)
Lemma walk_leaves_other_files_witness :
  let P := shelf_platform NoDetector (fun _ => scenario_doc) (fun _ => [60%N]) in
  let w := {| shelf_files := [("a.html", scenario_file); ("b.txt", [x41])];
              shelf_locked := [] |} in
  shelf_read (fst (fst (walk P ["a.html"] (w, [])))) "a.html" = inl [x3c]
  /\ shelf_read (fst (fst (walk P ["a.html"] (w, [])))) "b.txt" = inl [x41].
Proof.
  split; [reflexivity|].
  refine (walk_leaves_other_files
            (shelf_platform NoDetector (fun _ => scenario_doc) (fun _ => [60%N]))
            shelf_write_local ["a.html"]
            ({| shelf_files := [("a.html", scenario_file); ("b.txt", [x41])];
                shelf_locked := [] |}, []) "b.txt" _).
  intros [H|[]]. discriminate.
Defined.

(** X4.  A run over a directory in which every listed file is readable and
    needs no change writes nothing: the file system is the same, and the
    console gets one line per file saying so, in the order of the list,
    and then the closing summary. *)
Theorem settled_directory_is_not_written (P : platform) (m : machine P) :
  os_is_dir P (fst m) = true ->
  (forall p, In p (os_rglob P (fst m)) ->
     exists raw, os_read_bytes P (fst m) p = inl raw
                 /\ file_outcome P raw = Ok NoChange) ->
  main P m
  = ((fst m, snd m ++ map LineUnchanged (os_rglob P (fst m)) ++ [LineDone]),
     Finished).
Proof.
  intros Hdir Hall. unfold main, walk_and_update. rewrite Hdir. cbn [negb].
  assert (Hwalk : forall paths out,
            (forall p, In p paths ->
               exists raw, os_read_bytes P (fst m) p = inl raw
                           /\ file_outcome P raw = Ok NoChange) ->
            walk P paths (fst m, out)
            = ((fst m, out ++ map LineUnchanged paths), None)).
  { induction paths as [|p rest IH]; intros out H.
    - simpl. rewrite app_nil_r. reflexivity.
    - destruct (H p (or_introl eq_refl)) as (raw & Hread & Hout).
      cbn [walk]. unfold run_process_file. cbn [fst].
      rewrite Hread, Hout. unfold print. cbn [fst snd].
      rewrite IH by (intros q Hq; apply H; right; exact Hq).
      cbn [map]. rewrite <- app_assoc. reflexivity. }
  destruct m as [w out]. cbn [fst snd] in *.
  rewrite (Hwalk _ out Hall). unfold print. cbn [fst snd].
  rewrite <- app_assoc. reflexivity.
Qed.

(** A witness for X4: two copies of a file in final form. *)
Lemma settled_directory_is_not_written_witness :
  let P := shelf_platform NoDetector (fun _ => commented_doc) (fun _ => []) in
  let w := {| shelf_files := [("a.html", commented_file);
                              ("b.html", commented_file)];
              shelf_locked := [] |} in
  main P (w, [])
  = ((w, [LineUnchanged "a.html"; LineUnchanged "b.html"; LineDone]),
     Finished).
Proof.
  refine (settled_directory_is_not_written
            (shelf_platform NoDetector (fun _ => commented_doc) (fun _ => []))
            ({| shelf_files := [("a.html", commented_file);
                                ("b.html", commented_file)];
                shelf_locked := [] |}, []) eq_refl _).
  intros p [<-|[<-|[]]]; exists commented_file; split; reflexivity.
Defined.

Section BatchConsole.

Variable P : platform.

Lemma status_paths_app (a b : list line) :
  status_paths (a ++ b) = status_paths a ++ status_paths b.
Proof.
  induction a as [|l a IH]; [reflexivity|]. simpl.
  destruct (status_path l); simpl; rewrite IH; reflexivity.
Qed.

(** What one file adds to the console: its status line after at most one
    warning, or nothing when an exception leaves. *)
Lemma run_process_file_console (p : string) (m : machine P) :
  exists new,
    snd (fst (run_process_file P p m)) = snd m ++ new
    /\ status_paths new
       = match snd (run_process_file P p m) with
         | None => [p]
         | Some _ => []
         end.
Proof.
  unfold run_process_file.
  destruct (os_read_bytes P (fst m) p) as [raw|e];
    [|exists []; rewrite app_nil_r; auto].
  destruct (file_outcome P raw) as [[t|]|e].
  - unfold write_file_utf8.
    destruct (os_write_text P p t (fst m)) as [w [[| | |]|]]; unfold print;
      cbn [fst snd].
    + exists []. rewrite app_nil_r. auto.
    + exists [WarnNotWritten p; LineUpdated p]. rewrite <- app_assoc. auto.
    + exists [WarnWriteError p; LineUpdated p]. rewrite <- app_assoc. auto.
    + exists []. rewrite app_nil_r. auto.
    + exists [LineUpdated p]. auto.
  - exists [LineUnchanged p]. auto.
  - exists []. rewrite app_nil_r. auto.
Qed.

End BatchConsole.

(** X5.  The loop prints exactly one status line (updated or unchanged)
    for each file it completes, in the order of the list: after a run that
    ends normally the status lines name the whole list; after a run that
    an exception ends they name the files in front of the one that
    raised, and that one is the file the exception left: the loop passes
    the files in front of it without an exception, and on the machine
    they leave it is this file whose processing raises the exception and
    leaves the machine the run ends in. *)
Theorem one_status_line_per_file (P : platform) (paths : list string)
    (m : machine P) :
  exists new completed rest,
    snd (fst (walk P paths m)) = snd m ++ new
    /\ status_paths new = completed
    /\ paths = completed ++ rest
    /\ match snd (walk P paths m) with
       | None => rest = []
       | Some e =>
           exists p tl before,
             rest = p :: tl
             /\ walk P completed m = (before, None)
             /\ run_process_file P p before = (fst (walk P paths m), Some e)
       end.
Proof.
  revert m. induction paths as [|p tl IH]; intros m.
  - exists [], [], []. simpl. rewrite app_nil_r. auto.
  - destruct (run_process_file_console P p m) as (new1 & Hout & Hst).
    cbn [walk]. destruct (run_process_file P p m) as [m' [e|]] eqn:Hrun;
      cbn [fst snd] in *.
    + exists new1, [], (p :: tl). repeat split; auto.
      exists p, tl, m. repeat split. exact Hrun.
    + destruct (IH m') as (new2 & completed & rest & H1 & H2 & H3 & H4).
      exists (new1 ++ new2), (p :: completed), rest.
      rewrite H1, Hout, <- app_assoc, status_paths_app, Hst, H2.
      split; [reflexivity|]. split; [reflexivity|].
      split; [rewrite H3 at 1; reflexivity|].
      cbn [walk]. rewrite Hrun. exact H4.
Qed.

(** * Further properties of the mutators *)

Section MutatorFacts.

Lemma existsb_anchors (l : list node) :
  existsb lacks_target (filter (tag_named "a") l) = existsb needs_target l.
Proof.
  induction l as [|n l IH]; [reflexivity|]. simpl. unfold needs_target at 1.
  destruct (tag_named "a" n); simpl; rewrite IH; reflexivity.
Qed.

Lemma existsb_needs_target_hardened (l : list node) :
  existsb needs_target (map hardened l) = false.
Proof.
  induction l as [|n l IH]; [reflexivity|]. simpl.
  rewrite needs_target_hardened. exact IH.
Qed.

(** A node below which no anchor lacks a target is left as it is. *)
Lemma hardened_fixed (n : node) :
  existsb needs_target (self_and_descendants n) = false -> hardened n = n.
Proof.
  induction n as [nm a cs IH|t|t|t] using node_nested_ind; try reflexivity.
  rewrite self_and_descendants_Tag, hardened_Tag. cbn [existsb].
  intros H. apply orb_false_elim in H as [Hn Hcs]. f_equal.
  - unfold needs_target in Hn. simpl in Hn.
    destruct (String.eqb nm "a"); [|reflexivity].
    simpl in Hn. apply negb_false_iff in Hn.
    apply (proj1 (harden_attrs_spec a) Hn).
  - unfold descendants in Hcs. rewrite existsb_flat_map in Hcs. clear Hn.
    induction IH as [|c r Hc _ IHr]; [reflexivity|].
    simpl in Hcs. apply orb_false_elim in Hcs as [H1 H2].
    simpl. rewrite (Hc H1), (IHr H2). reflexivity.
Qed.

Lemma add_target_blank_fixed (s : soup) :
  existsb needs_target (descendants s) = false -> add_target_blank s = (s, false).
Proof.
  intros H. apply injective_projections.
  - unfold add_target_blank. rewrite harden_list_map. cbn [fst].
    unfold descendants in H. rewrite existsb_flat_map in H.
    induction s as [|c r IH]; [reflexivity|].
    simpl in H. apply orb_false_elim in H as [H1 H2].
    simpl. rewrite (hardened_fixed c H1), (IH H2). reflexivity.
  - destruct (add_target_blank_descendants s) as [_ ->]. exact H.
Qed.

End MutatorFacts.

(** X7.  After [add_target_blank] every anchor of the document has a target
    attribute, and a second run returns the same document with the flag
    false. *)
Theorem add_target_blank_settled (s : soup) :
  let s' := fst (add_target_blank s) in
  existsb lacks_target (anchors s') = false
  /\ add_target_blank s' = (s', false).
Proof.
  cbn zeta. assert (H : existsb needs_target
                          (descendants (fst (add_target_blank s))) = false).
  { destruct (add_target_blank_descendants s) as [-> _].
    apply existsb_needs_target_hardened. }
  split.
  - unfold anchors, find_all. rewrite existsb_anchors. exact H.
  - apply add_target_blank_fixed, H.
Qed.

Section FlagFacts.

Lemma ensure_script_flag_exact (s : soup) :
  snd (ensure_script s) = false <-> fst (ensure_script s) = s.
Proof.
  pose proof (ensure_script_cases s) as H.
  destruct (find is_preview_script s) as [x|] eqn:Hfind.
  - rewrite H. split; reflexivity.
  - destruct H as (Hflag & Hall & _). rewrite Hflag.
    split; [discriminate|]. intros Heq. rewrite Heq in Hall.
    unfold find_all in Hall. unfold find in Hfind.
    rewrite (find_none_filter _ _ Hfind) in Hall. discriminate.
Qed.

Lemma add_target_blank_flag_exact (s : soup) :
  snd (add_target_blank s) = false <-> fst (add_target_blank s) = s.
Proof.
  destruct (add_target_blank_descendants s) as [Hd Hf]. split.
  - intros H. rewrite Hf in H. rewrite (add_target_blank_fixed s H).
    reflexivity.
  - intros Heq. rewrite Hf. rewrite Heq in Hd. rewrite Hd.
    apply existsb_needs_target_hardened.
Qed.

(** What a pass of [adjust_body] that reports a change has done: put the
    script where there was none, or given a target to the anchors that
    lacked one. *)
Lemma adjust_body_change (s : soup) :
  snd (adjust_body s) = true ->
  (filter is_preview_script (descendants s) = []
   /\ filter is_preview_script (descendants (fst (adjust_body s)))
      = [preview_tag])
  \/ (existsb needs_target (descendants s) = true
      /\ existsb needs_target (descendants (fst (adjust_body s))) = false).
Proof.
  intros Hflag. destruct (find is_preview_script s) as [x|] eqn:Hfind.
  - right. rewrite (adjust_body_with_script s x Hfind) in *.
    destruct (add_target_blank_descendants s) as [-> Hf].
    split; [congruence|apply existsb_needs_target_hardened].
  - left. assert (H1 : adjust_body s = (fst (ensure_script s), true)).
    { unfold adjust_body, ensure_script. rewrite Hfind.
      destruct (find (tag_named "body") s); reflexivity. }
    rewrite H1. cbn [fst].
    pose proof (ensure_script_cases s) as H. rewrite Hfind in H.
    destruct H as (_ & Hall & _).
    split; [apply find_none_filter, Hfind|exact Hall].
Qed.

Lemma adjust_body_flag_exact (s : soup) :
  snd (adjust_body s) = false <-> fst (adjust_body s) = s.
Proof.
  split.
  - intros Hflag. unfold adjust_body in *.
    destruct (ensure_script s) as [s1 injected] eqn:E.
    destruct injected; [discriminate|].
    assert (s1 = s) as ->.
    { apply (f_equal fst) in E as E1. apply (f_equal snd) in E as E2.
      cbn [fst snd] in E1, E2. rewrite <- E1.
      apply ensure_script_flag_exact, E2. }
    apply add_target_blank_flag_exact, Hflag.
  - intros Heq. destruct (snd (adjust_body s)) eqn:Hflag; [|reflexivity].
    exfalso. destruct (adjust_body_change s Hflag) as [[H1 H2]|[H1 H2]];
      rewrite Heq in H2; congruence.
Qed.

End FlagFacts.

(** X10.  The flag of each markup mutator is exact: [ensure_script],
    [add_target_blank] and [adjust_body] return the flag false exactly
    when they return the document they were given. *)
Theorem markup_flags_exact (s : soup) :
  (snd (ensure_script s) = false <-> fst (ensure_script s) = s)
  /\ (snd (add_target_blank s) = false <-> fst (add_target_blank s) = s)
  /\ (snd (adjust_body s) = false <-> fst (adjust_body s) = s).
Proof.
  split; [apply ensure_script_flag_exact|].
  split; [apply add_target_blank_flag_exact|apply adjust_body_flag_exact].
Qed.

Section CspFrame.

Lemma filter_set_attr (k v : string) (a : attrs) :
  filter (fun kv => negb (String.eqb (fst kv) k)) (set_attr k v a)
  = filter (fun kv => negb (String.eqb (fst kv) k)) a.
Proof.
  induction a as [|[x y] a IH]; simpl.
  - rewrite String.eqb_refl. reflexivity.
  - destruct (String.eqb x k) eqn:E; simpl.
    + rewrite String.eqb_refl. reflexivity.
    + rewrite E. simpl. rewrite IH. reflexivity.
Qed.

Lemma without_attr_shallow k (n : node) :
  without_attr k (shallow n) = without_attr k n.
Proof. destruct n; reflexivity. Qed.

Lemma map_without_attr_shallow k (a b : list node) :
  map shallow a = map shallow b ->
  map (without_attr k) a = map (without_attr k) b.
Proof.
  intros H.
  assert (Hs : forall l, map (without_attr k) l
                         = map (without_attr k) (map shallow l)).
  { intros l. rewrite map_map. apply map_ext. intros n.
    symmetry. apply without_attr_shallow. }
  rewrite (Hs a), (Hs b), H. reflexivity.
Qed.

Lemma without_attr_set_attribute k v (n : node) :
  without_attr k (set_attribute k v n) = without_attr k n.
Proof.
  destruct n as [nm a cs| | |]; try reflexivity.
  simpl. rewrite filter_set_attr. reflexivity.
Qed.

Lemma self_and_descendants_set_attribute k v (n : node) :
  exists below,
    self_and_descendants n = n :: below
    /\ self_and_descendants (set_attribute k v n)
       = set_attribute k v n :: below.
Proof. destruct n; simpl; eauto. Qed.

(** The update of the content attribute of the policy element, seen
    without content attributes, and seen apart from policy elements. *)
Lemma updated_at_content v before after (m : node) :
  updated_at is_csp_meta (set_attribute "content" v) before after m ->
  map (without_attr "content") after = map (without_attr "content") before
  /\ map shallow (filter (fun n => negb (is_csp_meta n)) after)
     = map shallow (filter (fun n => negb (is_csp_meta n)) before).
Proof.
  intros (pre & pre' & post & -> & -> & Hsh & _ & Hm).
  assert (Hnp : shallow_pred (fun n => negb (is_csp_meta n)))
    by (intros n; simpl; rewrite shallow_is_csp_meta; reflexivity).
  destruct (self_and_descendants_set_attribute "content" v m)
    as (below & -> & ->).
  split.
  - rewrite !map_app, (map_without_attr_shallow _ pre' pre Hsh).
    cbn [map]. rewrite without_attr_set_attribute. reflexivity.
  - rewrite !filter_app, !map_app.
    rewrite (filter_shallow _ pre' Hnp), (filter_shallow _ pre Hnp), Hsh.
    cbn [filter]. rewrite is_csp_meta_set_content, Hm. reflexivity.
Qed.

Lemma adjust_csp_meta_skeleton (unescape : string -> string) (s : soup) :
  map (without_attr "content")
    (descendants (fst (adjust_csp_meta unescape s)))
  = map (without_attr "content") (descendants s).
Proof.
  unfold adjust_csp_meta.
  destruct (find is_csp_meta s) as [meta|] eqn:Hfind; [|reflexivity].
  destruct (node_attr "content" meta) as [raw|]; [|reflexivity].
  destruct (String.eqb _ _); [reflexivity|]. cbn [fst].
  eapply updated_at_content. apply update_first_spec, Hfind.
Qed.

Lemma adjust_csp_meta_elsewhere (unescape : string -> string) (s : soup) :
  map shallow (filter (fun n => negb (is_csp_meta n))
                 (descendants (fst (adjust_csp_meta unescape s))))
  = map shallow (filter (fun n => negb (is_csp_meta n)) (descendants s)).
Proof.
  unfold adjust_csp_meta.
  destruct (find is_csp_meta s) as [meta|] eqn:Hfind; [|reflexivity].
  destruct (node_attr "content" meta) as [raw|]; [|reflexivity].
  destruct (String.eqb _ _); [reflexivity|]. cbn [fst].
  eapply updated_at_content. apply update_first_spec, Hfind.
Qed.

End CspFrame.

(** X11.  [adjust_csp_meta] changes nothing but content attributes and only
    on policy elements: the sequence of nodes of the document, each seen
    without its content attribute, is the same before and after (so no
    node is added, removed, renamed or moved, and every other attribute
    keeps its value and place), and the nodes that are not policy
    elements keep all their attributes. *)
Theorem adjust_csp_meta_frame (unescape : string -> string) (s : soup) :
  let s' := fst (adjust_csp_meta unescape s) in
  map (without_attr "content") (descendants s')
  = map (without_attr "content") (descendants s)
  /\ map shallow (filter (fun n => negb (is_csp_meta n)) (descendants s'))
     = map shallow (filter (fun n => negb (is_csp_meta n)) (descendants s)).
Proof.
  cbn zeta. split.
  - apply adjust_csp_meta_skeleton.
  - apply adjust_csp_meta_elsewhere.
Qed.

(** X12.  Whatever the directive list, after the rewrite it holds a
    directive that the loop takes for script-src, every such directive
    lists self among its sources (quotes aside), and the other directives
    are the ones of the original list, in the same order. *)
Theorem csp_rewrite_allows_self (decoded : string) :
  let after := new_directives_of decoded in
  existsb is_script_src after = true
  /\ Forall (fun d => is_script_src d = true ->
                      has_self (tl (split_ws d)) = true) after
  /\ filter (fun d => negb (is_script_src d)) after
     = filter (fun d => negb (is_script_src d)) (parse_directives decoded).
Proof.
  cbn zeta. rewrite new_directives_closed_form. cbn zeta.
  set (ds := parse_directives decoded).
  assert (Hsrc : forall d, is_script_src (rewritten_directive d)
                           = is_script_src d).
  { intros d. unfold rewritten_directive.
    destruct (is_script_src d) eqn:E; [reflexivity|exact E]. }
  assert (Hself : Forall (fun d => is_script_src d = true ->
                                   has_self (tl (split_ws d)) = true)
                    (map rewritten_directive ds)).
  { apply Forall_forall. intros d' Hin.
    apply in_map_iff in Hin as (d & <- & _). intros H. rewrite Hsrc in H.
    rewrite (split_ws_rewritten d H). apply has_self_sources_with_self. }
  assert (Hrest : forall l, filter (fun d => negb (is_script_src d))
                              (map rewritten_directive l)
                            = filter (fun d => negb (is_script_src d)) l).
  { induction l as [|d l IH]; [reflexivity|]. simpl.
    rewrite Hsrc, IH. unfold rewritten_directive at 1.
    destruct (is_script_src d); reflexivity. }
  assert (Hex : forall l, existsb is_script_src (map rewritten_directive l)
                          = existsb is_script_src l).
  { induction l as [|d l IH]; [reflexivity|]. simpl.
    rewrite Hsrc, IH. reflexivity. }
  destruct (existsb is_script_src ds) eqn:E.
  - rewrite Hex, Hrest. auto.
  - split; [rewrite existsb_app; simpl; apply orb_true_r|]. split.
    + apply Forall_app. split; [exact Hself|]. repeat constructor.
    + rewrite filter_app, Hrest. simpl. apply app_nil_r.
Qed.

(** X14.  Serializing a directive list with semicolon and space and parsing
    it again gives the list back, for the list parsed from any value and
    for the list the rewrite produces from it. *)
Theorem directive_list_round_trip (decoded : string) :
  parse_directives (join "; " (parse_directives decoded))
  = parse_directives decoded
  /\ parse_directives (join "; " (new_directives_of decoded))
     = new_directives_of decoded.
Proof.
  split; apply parse_directives_join.
  - apply parse_directives_well_formed.
  - apply new_directives_well_formed.
Qed.

Section CommentFrame.

Lemma comment_leaf (c : node) :
  is_comment c = true -> self_and_descendants c = [c].
Proof. destruct c; try discriminate. reflexivity. Qed.

Lemma extract_comments_node_skeleton (n : node) :
  is_comment n = false ->
  map shallow (self_and_descendants (extract_comments_node n))
  = map shallow (filter (fun x => negb (is_comment x)) (self_and_descendants n)).
Proof.
  induction n as [nm a cs IH|t|t|t] using node_nested_ind;
    intros Hn; try reflexivity; try discriminate.
  rewrite extract_comments_node_Tag, !self_and_descendants_Tag.
  cbn [filter is_comment negb map shallow]. f_equal. clear Hn.
  induction IH as [|c r Hc _ IHr]; [reflexivity|].
  cbn [extract_comments]. rewrite (descendants_cons c r), filter_app, map_app.
  destruct (is_comment c) eqn:E.
  - rewrite (comment_leaf c E). cbn [filter]. rewrite E. exact IHr.
  - rewrite descendants_cons, map_app, (Hc eq_refl), IHr. reflexivity.
Qed.

Lemma extract_comments_skeleton (l : list node) :
  map shallow (descendants (extract_comments l))
  = map shallow (filter (fun x => negb (is_comment x)) (descendants l)).
Proof.
  induction l as [|c r IH]; [reflexivity|].
  cbn [extract_comments]. rewrite (descendants_cons c r), filter_app, map_app.
  destruct (is_comment c) eqn:E.
  - rewrite (comment_leaf c E). cbn [filter]. rewrite E. exact IH.
  - rewrite descendants_cons, map_app, IH.
    rewrite (extract_comments_node_skeleton c E). reflexivity.
Qed.

Lemma extract_comments_node_fixed (n : node) :
  filter is_comment (self_and_descendants n) = [] ->
  extract_comments_node n = n.
Proof.
  induction n as [nm a cs IH|t|t|t] using node_nested_ind;
    intros Hn; try reflexivity.
  rewrite extract_comments_node_Tag. f_equal.
  rewrite self_and_descendants_Tag in Hn. cbn [filter is_comment] in Hn.
  induction IH as [|c r Hc _ IHr]; [reflexivity|].
  rewrite descendants_cons, filter_app in Hn.
  apply app_eq_nil in Hn as [H1 H2].
  cbn [extract_comments].
  destruct (is_comment c) eqn:E.
  - rewrite (comment_leaf c E) in H1. cbn [filter] in H1. rewrite E in H1.
    discriminate.
  - rewrite (Hc H1), (IHr H2). reflexivity.
Qed.

Lemma extract_comments_fixed (l : list node) :
  comment_free l -> extract_comments l = l.
Proof.
  unfold comment_free, find_all.
  induction l as [|c r IH]; intros Hn; [reflexivity|].
  rewrite descendants_cons, filter_app in Hn.
  apply app_eq_nil in Hn as [H1 H2].
  cbn [extract_comments].
  destruct (is_comment c) eqn:E.
  - rewrite (comment_leaf c E) in H1. cbn [filter] in H1. rewrite E in H1.
    discriminate.
  - rewrite (extract_comments_node_fixed c H1), (IH H2). reflexivity.
Qed.

End CommentFrame.

(** X15.  The removal of comments removes nothing else: the nodes of the
    result are, in the same order and with the same names, attributes and
    text, the nodes of the document that are not comments; and removing
    comments a second time changes nothing. *)
Theorem extract_comments_only_comments (l : list node) :
  map shallow (descendants (extract_comments l))
  = map shallow (filter (fun n => negb (is_comment n)) (descendants l))
  /\ extract_comments (extract_comments l) = extract_comments l.
Proof.
  split; [apply extract_comments_skeleton|].
  apply extract_comments_fixed, extract_comments_free.
Qed.

(** X16.  Without charset_normalizer the resolver never raises and follows
    the three tiers: the strict UTF-8 text when the bytes are UTF-8; else,
    when chardet is installed, names an encoding, reports a confidence
    above one half and the bytes decode under that encoding, that text;
    else the lossy UTF-8 text. *)
Theorem resolver_three_tiers (text : Type)
    (decode_utf8 : list byte -> option text)
    (decode : string -> list byte -> option text)
    (decode_utf8_replace : list byte -> text)
    (chardet : option (list byte -> detection)) (raw : list byte) :
  exists t,
    read_file_smart text decode_utf8 decode decode_utf8_replace
      (import_detect_encoding None chardet) raw = Ok t
    /\ (forall u, decode_utf8 raw = Some u -> t = u)
    /\ (decode_utf8 raw = None ->
        forall detect enc u,
          chardet = Some detect ->
          det_encoding (detect raw) = Some enc -> enc <> "" ->
          (1 # 2 < match det_confidence (detect raw) with
                   | Some c => c
                   | None => 0
                   end)%Q ->
          decode enc raw = Some u -> t = u)
    /\ (decode_utf8 raw = None ->
        (forall detect enc u,
           chardet = Some detect ->
           det_encoding (detect raw) = Some enc -> enc <> "" ->
           (1 # 2 < match det_confidence (detect raw) with
                    | Some c => c
                    | None => 0
                    end)%Q ->
           decode enc raw = Some u -> False) ->
        t = decode_utf8_replace raw).
Proof.
  unfold read_file_smart.
  destruct (decode_utf8 raw) as [u0|] eqn:Hutf8.
  - exists u0. split; [reflexivity|]. split; [congruence|].
    split; discriminate.
  - destruct chardet as [detect|]; cbn [import_detect_encoding].
    + destruct (accepted_encoding (detect raw)) as [enc|] eqn:Hacc.
      * apply accepted_encoding_iff in Hacc as (Henc & Hne & Hconf).
        destruct (decode enc raw) as [u1|] eqn:Hdec.
        -- exists u1. split; [reflexivity|]. split; [discriminate|]. split.
           ++ intros _ detect' enc' u [= <-] Henc' _ _ Hdec'. congruence.
           ++ intros _ Hno. exfalso.
              apply (Hno detect enc u1 eq_refl Henc Hne Hconf Hdec).
        -- exists (decode_utf8_replace raw). split; [reflexivity|].
           split; [discriminate|]. split; [|reflexivity].
           intros _ detect' enc' u [= <-] Henc' _ _ Hdec'. congruence.
      * exists (decode_utf8_replace raw). split; [reflexivity|].
        split; [discriminate|]. split; [|reflexivity].
        intros _ detect' enc' u [= <-] Henc' Hne' Hconf' _.
        assert (H : accepted_encoding (detect raw) = Some enc')
          by (apply accepted_encoding_iff; auto).
        congruence.
    + exists (decode_utf8_replace raw). split; [reflexivity|].
      split; [discriminate|]. split; [|reflexivity].
      intros _ detect enc u [=].
Qed.

Lemma unescape_apos_plain (s : string) : lacks "&" s -> unescape_apos s = s.
Proof.
  induction s as [|c r IH]; [reflexivity|]. intros H.
  apply lacks_cons in H as [Hc Hr]. simpl.
  rewrite Ascii.eqb_sym, Hc, (IH Hr). reflexivity.
Qed.

(** A witness for X13: a policy without ampersand and without
    script-src. *)
Lemma adjust_csp_meta_idempotent_witness :
  let s := [Tag "meta" [("http-equiv", "Content-Security-Policy");
                        ("content", "default-src 'none'")] []] in
  adjust_csp_meta unescape_apos (fst (adjust_csp_meta unescape_apos s))
  = ([Tag "meta" [("http-equiv", "Content-Security-Policy");
                  ("content", "default-src 'none'; script-src 'self'")] []],
     false).
Proof.
  refine (adjust_csp_meta_idempotent unescape_apos unescape_apos_plain
            [Tag "meta" [("http-equiv", "Content-Security-Policy");
                         ("content", "default-src 'none'")] []] _).
  intros meta raw Hfind. injection Hfind as <-.
  intros Hraw. injection Hraw as <-. reflexivity.
Defined.

(** A witness for X9: the scenario document. *)
Lemma adjust_body_needs_two_passes_witness :
  snd (adjust_body scenario_doc) = true
  /\ snd (adjust_body (fst (adjust_body scenario_doc))) = true.
Proof.
  exact (adjust_body_needs_two_passes scenario_doc eq_refl eq_refl).
Defined.

(** * The pipeline applied again *)

Section Settling.

Variable unescape : string -> string.

(** [html.unescape] returns its argument when it holds no ampersand. *)
Hypothesis unescape_plain : forall s, lacks "&" s -> unescape s = s.

Lemma find_hd_filter {A : Type} (p : A -> bool) (l : list A) :
  List.find p l = hd_error (filter p l).
Proof.
  induction l as [|x l IH]; [reflexivity|]. simpl.
  destruct (p x); [reflexivity|exact IH].
Qed.

Lemma node_attr_shallow k (n : node) : node_attr k (shallow n) = node_attr k n.
Proof. destruct n; reflexivity. Qed.

(** The matches of a shallow predicate, without what lies below them,
    decide what a search finds, up to what lies below it. *)
Lemma find_shallow (p : node -> bool) (a b : list node) :
  map shallow (filter p a) = map shallow (filter p b) ->
  option_map shallow (List.find p a) = option_map shallow (List.find p b).
Proof.
  rewrite !find_hd_filter. intros H.
  destruct (filter p a), (filter p b); try discriminate; [reflexivity|].
  simpl in *. injection H as H _. rewrite H. reflexivity.
Qed.

Lemma policy_content_shallow (s t : soup) :
  map shallow (filter is_csp_meta (descendants s))
  = map shallow (filter is_csp_meta (descendants t)) ->
  policy_content s = policy_content t.
Proof.
  intros H. apply find_shallow in H. unfold policy_content, find.
  destruct (List.find is_csp_meta (descendants s)) as [m|],
           (List.find is_csp_meta (descendants t)) as [m'|];
    try discriminate; [|reflexivity].
  simpl in *. injection H as H.
  rewrite <- (node_attr_shallow "content" m), H, node_attr_shallow.
  reflexivity.
Qed.

(** The matches of a shallow predicate that the preview script does not
    satisfy are the same after the injection of the script. *)
Lemma ensure_script_keeps (q : node -> bool) (s : soup) :
  shallow_pred q -> q preview_tag = false ->
  map shallow (filter q (descendants (fst (ensure_script s))))
  = map shallow (filter q (descendants s)).
Proof.
  intros Hq Hpv. unfold ensure_script.
  destruct (find is_preview_script s); [reflexivity|].
  destruct (find (tag_named "body") s) as [b|] eqn:Hbody; cbn [fst].
  - destruct (find_tag_named _ _ _ Hbody) as (a & cs & ->).
    destruct (update_first_spec _ (append_child preview_tag) _ _ Hbody)
      as (pre & pre' & post & -> & -> & Hsh & _).
    rewrite !filter_app, !map_app.
    rewrite (filter_shallow q pre' Hq), (filter_shallow q pre Hq), Hsh.
    f_equal. f_equal. cbn [append_child].
    rewrite !self_and_descendants_Tag, descendants_app. cbn [filter].
    replace (q (Tag "body" a (cs ++ [preview_tag])))
      with (q (Tag "body" a cs))
      by (rewrite <- (Hq (Tag "body" a cs)),
            <- (Hq (Tag "body" a (cs ++ [preview_tag]))); reflexivity).
    change (descendants [preview_tag]) with [preview_tag].
    rewrite filter_app. cbn [filter]. rewrite Hpv, app_nil_r.
    destruct (q (Tag "body" a cs)); reflexivity.
  - rewrite descendants_app, filter_app.
    change (descendants [preview_tag]) with [preview_tag].
    cbn [filter]. rewrite Hpv, app_nil_r. reflexivity.
Qed.

Lemma is_csp_meta_hardened (n : node) :
  is_csp_meta (hardened n) = is_csp_meta n.
Proof.
  destruct n as [nm a cs| | |]; try reflexivity.
  rewrite hardened_Tag. unfold is_csp_meta. simpl.
  destruct (String.eqb nm "a") eqn:E; [|reflexivity].
  apply String.eqb_eq in E. subst nm. reflexivity.
Qed.

Lemma shallow_hardened_meta (n : node) :
  is_csp_meta n = true -> shallow (hardened n) = shallow n.
Proof.
  destruct n as [nm a cs| | |]; try discriminate.
  rewrite hardened_Tag. unfold is_csp_meta. simpl.
  destruct (String.eqb nm "a") eqn:E; [|reflexivity].
  apply String.eqb_eq in E. subst nm. discriminate.
Qed.

Lemma add_target_blank_keeps_policy (s : soup) :
  policy_content (fst (add_target_blank s)) = policy_content s.
Proof.
  apply policy_content_shallow.
  destruct (add_target_blank_descendants s) as [-> _].
  rewrite filter_map_commute by exact is_csp_meta_hardened.
  rewrite map_map. apply map_ext_in. intros n Hn.
  apply filter_In in Hn as [_ Hn]. apply shallow_hardened_meta, Hn.
Qed.

Lemma adjust_body_keeps_policy (s : soup) :
  policy_content (fst (adjust_body s)) = policy_content s.
Proof.
  assert (H1 : policy_content (fst (ensure_script s)) = policy_content s).
  { apply policy_content_shallow, ensure_script_keeps;
      [exact shallow_is_csp_meta|reflexivity]. }
  unfold adjust_body. destruct (ensure_script s) as [s1 injected].
  cbn [fst] in H1. destruct injected; [exact H1|].
  rewrite add_target_blank_keeps_policy. exact H1.
Qed.

(** The policy after [adjust_csp_meta]: rewritten when there is one. *)
Lemma policy_content_adjusted (s : soup) :
  policy_content (fst (adjust_csp_meta unescape s))
  = match policy_content s with
    | Some (Some raw) => Some (Some (rewrite_content unescape raw))
    | other => other
    end.
Proof.
  unfold policy_content at 2.
  destruct (find is_csp_meta s) as [meta|] eqn:Hfind; cbn [option_map].
  - destruct (node_attr "content" meta) as [raw|] eqn:Hraw.
    + destruct (adjust_csp_meta_found unescape s meta raw Hfind Hraw)
        as (_ & _ & _ & meta' & Hfind' & Hraw').
      unfold policy_content. rewrite Hfind'. simpl. rewrite Hraw'.
      reflexivity.
    + unfold adjust_csp_meta. rewrite Hfind, Hraw. cbn [fst].
      unfold policy_content. rewrite Hfind. simpl. rewrite Hraw. reflexivity.
  - unfold adjust_csp_meta. rewrite Hfind. cbn [fst].
    unfold policy_content. rewrite Hfind. reflexivity.
Qed.

Lemma adjust_csp_meta_at_rest (s : soup) :
  policy_at_rest unescape s -> adjust_csp_meta unescape s = (s, false).
Proof.
  unfold policy_at_rest, policy_content, adjust_csp_meta. intros H.
  destruct (find is_csp_meta s) as [meta|]; [|reflexivity].
  destruct (node_attr "content" meta) as [raw|] eqn:Hraw; [|reflexivity].
  simpl in H. rewrite Hraw in H.
  rewrite (H raw eq_refl), String.eqb_refl. reflexivity.
Qed.

Lemma adjust_csp_meta_rests (s : soup) :
  policy_plain s -> policy_at_rest unescape (fst (adjust_csp_meta unescape s)).
Proof.
  intros Hplain raw'. rewrite policy_content_adjusted.
  destruct (policy_content s) as [[raw|]|] eqn:Hs; try discriminate.
  intros [= <-]. apply (rewrite_content_idempotent unescape unescape_plain).
  apply Hplain. exact Hs.
Qed.

(** The matches of a shallow predicate that no policy element satisfies
    are the same after [adjust_csp_meta]. *)
Lemma adjust_csp_meta_keeps (q : node -> bool) (s : soup) :
  shallow_pred q -> (forall n, is_csp_meta n = true -> q n = false) ->
  map shallow (filter q (descendants (fst (adjust_csp_meta unescape s))))
  = map shallow (filter q (descendants s)).
Proof.
  intros Hq Hdisjoint.
  assert (Hsplit : forall l,
            filter q l = filter q (filter (fun n => negb (is_csp_meta n)) l)).
  { induction l as [|n l IH]; [reflexivity|]. simpl.
    destruct (is_csp_meta n) eqn:E; simpl.
    - rewrite (Hdisjoint n E). exact IH.
    - destruct (q n); rewrite IH; reflexivity. }
  pose proof (adjust_csp_meta_elsewhere unescape s) as H.
  rewrite (Hsplit (descendants (fst (adjust_csp_meta unescape s)))).
  rewrite (Hsplit (descendants s)).
  rewrite !(filter_shallow q _ Hq), H. reflexivity.
Qed.

Lemma existsb_shallow_filter (q : node -> bool) (a b : list node) :
  map shallow (filter q a) = map shallow (filter q b) ->
  existsb q a = existsb q b.
Proof.
  intros H. rewrite !existsb_filter.
  destruct (filter q a), (filter q b); try reflexivity; discriminate.
Qed.

Lemma has_script_shallow (s t : soup) :
  map shallow (filter is_preview_script (descendants t))
  = map shallow (filter is_preview_script (descendants s)) ->
  has_script s -> has_script t.
Proof.
  intros H [x Hx]. apply find_shallow in H. unfold has_script, find in *.
  rewrite Hx in H. destruct (List.find is_preview_script (descendants t));
    [eauto|discriminate].
Qed.

Lemma adjust_body_has_script (s : soup) : has_script (fst (adjust_body s)).
Proof.
  destruct (find is_preview_script s) as [x|] eqn:Hfind.
  - rewrite (adjust_body_with_script s x Hfind). exists (hardened x).
    unfold find in *. destruct (add_target_blank_descendants s) as [-> _].
    rewrite find_map_commute by exact is_preview_script_hardened.
    rewrite Hfind. reflexivity.
  - assert (H1 : adjust_body s = (fst (ensure_script s), true)).
    { unfold adjust_body, ensure_script. rewrite Hfind.
      destruct (find (tag_named "body") s); reflexivity. }
    rewrite H1. cbn [fst].
    pose proof (ensure_script_cases s) as H. rewrite Hfind in H.
    destruct H as (_ & Hall & _). unfold find_all in Hall.
    apply find_some_filter in Hall. exists preview_tag. exact Hall.
Qed.

Lemma not_policy_preview_script (n : node) :
  is_csp_meta n = true -> is_preview_script n = false.
Proof.
  destruct n as [nm a cs| | |]; try discriminate.
  unfold is_csp_meta, is_preview_script. simpl.
  destruct (String.eqb nm "meta") eqn:E; [|discriminate].
  apply String.eqb_eq in E. subst nm. reflexivity.
Qed.

Lemma not_policy_needs_target (n : node) :
  is_csp_meta n = true -> needs_target n = false.
Proof.
  destruct n as [nm a cs| | |]; try discriminate.
  unfold is_csp_meta, needs_target. simpl.
  destruct (String.eqb nm "meta") eqn:E; [|discriminate].
  apply String.eqb_eq in E. subst nm. reflexivity.
Qed.

Lemma mutate_fst (s : soup) :
  fst (mutate unescape s)
  = fst (adjust_csp_meta unescape (fst (adjust_body s))).
Proof.
  unfold mutate. destruct (adjust_body s) as [s1 b]. cbn [fst].
  destruct (adjust_csp_meta unescape s1). reflexivity.
Qed.

(** On a settled document the pipeline changes nothing. *)
Lemma settled_fixed (s : soup) :
  settled unescape s -> mutate unescape s = (s, false).
Proof.
  intros ([x Hx] & Hneeds & Hrest). unfold mutate.
  rewrite (adjust_body_with_script s x Hx), (add_target_blank_fixed s Hneeds).
  rewrite (adjust_csp_meta_at_rest s Hrest). reflexivity.
Qed.

(** With the script in place, one pass settles the document. *)
Lemma settled_after_pass (s : soup) :
  has_script s -> policy_plain s -> settled unescape (fst (mutate unescape s)).
Proof.
  intros [x Hx] Hplain. rewrite mutate_fst.
  set (s1 := fst (adjust_body s)).
  assert (Hneeds : existsb needs_target (descendants s1) = false).
  { unfold s1. rewrite (adjust_body_with_script s x Hx).
    destruct (add_target_blank_descendants s) as [-> _].
    apply existsb_needs_target_hardened. }
  assert (Hplain1 : policy_plain s1).
  { intros raw. unfold s1. rewrite adjust_body_keeps_policy. apply Hplain. }
  split; [|split].
  - apply (has_script_shallow s1); [|apply adjust_body_has_script].
    apply adjust_csp_meta_keeps;
      [exact shallow_is_preview_script|exact not_policy_preview_script].
  - rewrite <- Hneeds. apply existsb_shallow_filter.
    apply adjust_csp_meta_keeps;
      [exact shallow_needs_target|exact not_policy_needs_target].
  - apply adjust_csp_meta_rests, Hplain1.
Qed.

(** The first pass puts the script in place and keeps the policy free of
    ampersands. *)
Lemma first_pass (s : soup) :
  policy_plain s ->
  has_script (fst (mutate unescape s))
  /\ policy_plain (fst (mutate unescape s)).
Proof.
  intros Hplain. rewrite mutate_fst. set (s1 := fst (adjust_body s)).
  assert (Hplain1 : policy_plain s1).
  { intros raw. unfold s1. rewrite adjust_body_keeps_policy. apply Hplain. }
  split.
  - apply (has_script_shallow s1); [|apply adjust_body_has_script].
    apply adjust_csp_meta_keeps;
      [exact shallow_is_preview_script|exact not_policy_preview_script].
  - intros raw'. rewrite policy_content_adjusted.
    destruct (policy_content s1) as [[raw|]|] eqn:Hs; try discriminate.
    intros [= <-].
    apply (rewrite_content_plain unescape unescape_plain raw (Hplain1 raw Hs)).
Qed.

(** X17.  When the policy of the document holds no ampersand, the two
    mutators in sequence reach a fixed point: with the preview script
    already in the document the second pass changes nothing and reports
    no change; in any case the third pass does. *)
Theorem mutate_settles (s : soup) :
  policy_plain s ->
  let s1 := fst (mutate unescape s) in
  let s2 := fst (mutate unescape s1) in
  (has_script s -> mutate unescape s1 = (s1, false))
  /\ mutate unescape s2 = (s2, false).
Proof.
  intros Hplain s1 s2. split.
  - intros Hscript. apply settled_fixed, settled_after_pass; assumption.
  - destruct (first_pass s Hplain) as [Hscript1 Hplain1].
    apply settled_fixed. apply settled_after_pass; assumption.
Qed.

End Settling.

Lemma policy_doc_plain : policy_plain policy_doc.
Proof. intros raw H. injection H as <-. reflexivity. Qed.

(** A witness for X17: a page with a policy, an anchor and no script. *)
Lemma mutate_settles_witness :
  let s2 := fst (mutate unescape_apos (fst (mutate unescape_apos policy_doc))) in
  mutate unescape_apos s2 = (s2, false).
Proof.
  exact (proj2 (mutate_settles unescape_apos unescape_apos_plain policy_doc
                  policy_doc_plain)).
Defined.

Section FlagExact.

Variable unescape : string -> string.

Lemma adjust_csp_meta_flag_exact (s : soup) :
  snd (adjust_csp_meta unescape s) = false
  <-> fst (adjust_csp_meta unescape s) = s.
Proof.
  split.
  - unfold adjust_csp_meta.
    destruct (find is_csp_meta s) as [meta|]; [|reflexivity].
    destruct (node_attr "content" meta) as [raw|]; [|reflexivity].
    destruct (String.eqb _ _); [reflexivity|discriminate].
  - intros Heq. pose proof (policy_content_adjusted unescape s) as H.
    rewrite Heq in H. unfold policy_content in H. unfold adjust_csp_meta.
    destruct (find is_csp_meta s) as [meta|]; [|reflexivity].
    destruct (node_attr "content" meta) as [raw|] eqn:Hraw; [|reflexivity].
    simpl in H. rewrite Hraw in H. injection H as H.
    rewrite <- H, String.eqb_refl. reflexivity.
Qed.

Lemma adjust_csp_meta_keeps_body_work (s : soup) :
  filter is_preview_script
    (descendants (fst (adjust_csp_meta unescape s))) = []
  <-> filter is_preview_script (descendants s) = [].
Proof.
  pose proof (adjust_csp_meta_keeps unescape is_preview_script s
                shallow_is_preview_script not_policy_preview_script) as H.
  split; intros E; rewrite E in H;
    [destruct (filter is_preview_script (descendants s))
    |destruct (filter is_preview_script
                 (descendants (fst (adjust_csp_meta unescape s))))];
    try reflexivity; discriminate.
Qed.

End FlagExact.

(** X18.  The flag that decides whether a file is written is exact: the two
    mutators in sequence report no change exactly when the document they
    return is the document they were given. *)
Theorem mutate_flag_exact (unescape : string -> string) (s : soup) :
  snd (mutate unescape s) = false <-> fst (mutate unescape s) = s.
Proof.
  rewrite mutate_flag, mutate_fst.
  destruct (snd (adjust_body s)) eqn:Hbody; cbn [orb].
  - split; [discriminate|]. intros Heq. exfalso.
    destruct (adjust_body_change s Hbody) as [[H1 H2]|[H1 H2]].
    + rewrite <- Heq in H1.
      apply adjust_csp_meta_keeps_body_work in H1. congruence.
    + rewrite (existsb_shallow_filter needs_target (descendants s)
                 (descendants (fst (adjust_body s)))) in H1; [congruence|].
      rewrite <- Heq at 1. apply adjust_csp_meta_keeps;
        [exact shallow_needs_target|exact not_policy_needs_target].
  - assert (Hsame : fst (adjust_body s) = s)
      by (apply adjust_body_flag_exact, Hbody).
    rewrite Hsame. apply adjust_csp_meta_flag_exact.
Qed.

(** * The examples of the specification, evaluated *)

Example split_on_keeps_empty_pieces :
  split_on ";" "a; b;;c" = ["a"; " b"; ""; "c"].
Proof. reflexivity. Qed.

Example split_ws_drops_whitespace :
  split_ws "  script-src   'self'  x " = ["script-src"; "'self'"; "x"].
Proof. reflexivity. Qed.

Example parse_directives_example :
  parse_directives " default-src 'none' ;; img-src * ; "
  = ["default-src 'none'"; "img-src *"].
Proof. reflexivity. Qed.

Example csp_default_src_example :
  rewrite_content unescape_apos "default-src 'none'"
  = "default-src 'none'; script-src 'self'".
Proof. reflexivity. Qed.

(** On a value that holds the reference itself, as the tree does when the
    file spells the ampersand as a reference. *)
Example csp_entity_example :
  rewrite_content unescape_apos "default-src &#39;none&#39;"
  = "default-src &#39;none&#39;; script-src &#39;self&#39;".
Proof. reflexivity. Qed.

Example csp_upper_case_name_example :
  rewrite_content unescape_apos "SCRIPT-SRC https://x.com"
  = "script-src https://x.com 'self'".
Proof. reflexivity. Qed.

Example ensure_script_without_body :
  ensure_script [Tag "p" [] []]
  = ([Tag "p" [] []; Tag "script" [("src", "/preview.js")] []], true).
Proof. reflexivity. Qed.

Example ensure_script_upper_case_src :
  ensure_script [Tag "script" [("src", "/PREVIEW.JS")] []]
  = ([Tag "script" [("src", "/PREVIEW.JS")] []], false).
Proof. reflexivity. Qed.

Example add_target_blank_example :
  add_target_blank
    [Tag "a" [("href", "x")] []; Tag "a" [("target", "_self")] []]
  = ([Tag "a" [("href", "x"); ("target", "_blank");
               ("rel", "noopener noreferrer")] [];
      Tag "a" [("target", "_self")] []], true).
Proof. reflexivity. Qed.

Example utf8_strict_example : utf8_strict [x41; xc3; xa9] = Some [65; 233]%N.
Proof. reflexivity. Qed.
